(** * HA Live Config: the profile store and its service handlers

    A shallow embedding of [custom_components/ha_live_config/__init__.py]:
    the stored document (an API key and a list of profiles), the five
    service handlers registered by [async_setup], and the properties of
    the upsert / delete / lookup logic.

    The services are registered without a schema, so the fields of a
    call carry any JSON value: [None], booleans, integers, finite
    floats, strings, lists and objects, with Python's truthiness and
    [==] (NaN and the infinities are left out).  A profile
    is a Python [dict], modelled as a finite map from keys to values;
    subscripting ([p["name"]]) and [str] methods on other values can
    raise, and the handlers below raise exactly where the Python code
    does.  A Python [str] is represented by its UTF-8 bytes; [str.lower]
    is a parameter of the development. *)

From Stdlib Require Import Ascii String NArith ZArith.
From stdpp Require Import gmap strings list fin_maps.

Local Open Scope string_scope.
#[local] Set Warnings "-clear-no-such-hyp,-register-all".

(** ** Python values *)

(** [VFloat m e] is the finite float [m * 2 ^ e]; [VDict] lists the
    items of an object. *)
Inductive value : Type :=
  | VNone
  | VBool (b : bool)
  | VInt (n : Z)
  | VFloat (m e : Z)
  | VStr (s : string)
  | VList (l : list value)
  | VDict (kvs : list (string * value)).

#[global] Instance value_eq_dec : EqDecision value.
Proof.
  refine (fix go (x y : value) {struct x} : Decision (x = y) :=
    match x, y with
    | VNone, VNone => left _
    | VBool a, VBool b => cast_if (decide (a = b))
    | VInt a, VInt b => cast_if (decide (a = b))
    | VFloat m e, VFloat m' e' => cast_if_and (decide (m = m')) (decide (e = e'))
    | VStr a, VStr b => cast_if (decide (a = b))
    | VList l, VList k => cast_if (@list_eq_dec _ go l k)
    | VDict l, VDict k =>
        cast_if (@list_eq_dec _ (@prod_eq_dec _ _ _ go) l k)
    | _, _ => right _
    end); congruence.
Defined.

(** [bool(v)]: [None], [False], zero, the empty string, the empty list
    and the empty object are falsy. *)
Definition truthy (v : value) : bool :=
  match v with
  | VNone => false
  | VBool b => b
  | VInt n => negb (bool_decide (n = 0%Z))
  | VFloat m _ => negb (bool_decide (m = 0%Z))
  | VStr s => negb (bool_decide (s = ""))
  | VList l => negb (bool_decide (l = []))
  | VDict kvs => negb (bool_decide (kvs = []))
  end.

(** Python's [==] compares numbers by value, whatever their type
    ([True == 1 == 1.0]), lists element by element and objects key by
    key; otherwise it is equality of values.  [norm] picks one
    representative per class: a number with an integral value becomes
    that integer, any other float gets an odd mantissa, and the items
    of an object are listed in the order of their keys. *)
Fixpoint strip_pos (p : positive) (e : Z) : positive * Z :=
  match p with
  | xO p' => strip_pos p' (e + 1)
  | _ => (p, e)
  end.

Definition norm_float (m e : Z) : value :=
  match m with
  | Z0 => VInt 0
  | Zpos p =>
      let '(p', e') := strip_pos p e in
      if (0 <=? e')%Z then VInt (Zpos p' * 2 ^ e') else VFloat (Zpos p') e'
  | Zneg p =>
      let '(p', e') := strip_pos p e in
      if (0 <=? e')%Z then VInt (Zneg p' * 2 ^ e') else VFloat (Zneg p') e'
  end.

Fixpoint norm (v : value) : value :=
  match v with
  | VBool b => VInt (if b then 1 else 0)
  | VFloat m e => norm_float m e
  | VList l => VList (map norm l)
  | VDict kvs =>
      VDict (map_to_list
               (list_to_map (map (λ kv, (kv.1, norm kv.2)) kvs)
                  : gmap string value))
  | _ => v
  end.

(** [a == b]; [a != b] is its negation. *)
Definition py_eq (a b : value) : bool := bool_decide (norm a = norm b).

(** [v is None]. *)
Definition is_none (v : value) : bool :=
  match v with
  | VNone => true
  | _ => false
  end.

(** ** Exceptions and fallible expressions

    The message of an f-string is kept as its template together with the
    values substituted into it. *)

Inductive exn : Type :=
  | ValueError (msg : string) (args : list value)
  | KeyError (key : string)
  | AttributeError (attr : string).

Inductive result (A : Type) : Type :=
  | Ok (a : A)
  | Raise (e : exn).
Arguments Ok {A} a.
Arguments Raise {A} e.

#[global] Instance result_ret : MRet result := fun A a => Ok a.
#[global] Instance result_bind : MBind result := fun A B f r =>
  match r with
  | Ok a => f a
  | Raise e => Raise e
  end.

(** ** Dictionaries *)

(** [d.get(k)]: [None] when the key is absent. *)
Definition dict_get (d : gmap string value) (k : string) : value :=
  default VNone (d !! k).

(** [d[k]]: raises [KeyError] when the key is absent. *)
Definition getitem (d : gmap string value) (k : string) : result value :=
  match d !! k with
  | Some v => Ok v
  | None => Raise (KeyError k)
  end.

(** [bool(d)] for a dict: the empty dict is falsy. *)
Definition dict_truthy (d : gmap string value) : bool :=
  negb (bool_decide (d = ∅)).

(** ** [str.lower] and [str.startswith]

    [str.lower] belongs to the Python runtime.  The development takes it
    as a parameter and uses one fact about it: lower-casing a non-empty
    string does not give the lower-cased empty string. *)

Class StrLower : Type := {
  lower : string → string;
  lower_nonempty : ∀ s, lower s = lower "" → s = ""
}.

(** [v.lower()]: only a [str] has the method. *)
Definition str_lower {L : StrLower} (v : value) : result string :=
  match v with
  | VStr s => Ok (lower s)
  | _ => Raise (AttributeError "lower")
  end.

(** [v.startswith(pre)]: only a [str] has the method. *)
Definition str_startswith (v : value) (pre : string) : result bool :=
  match v with
  | VStr s => Ok (String.prefix pre s)
  | _ => Raise (AttributeError "startswith")
  end.

(** An instance for the examples: lower-casing of the ASCII letters. *)
Definition lower_ascii_char (c : ascii) : ascii :=
  let n := nat_of_ascii c in
  if (65 <=? n)%nat && (n <=? 90)%nat then ascii_of_nat (n + 32) else c.

Fixpoint lower_ascii (s : string) : string :=
  match s with
  | EmptyString => EmptyString
  | String c r => String (lower_ascii_char c) (lower_ascii r)
  end.

#[global] Instance ascii_lower : StrLower.
Proof.
  refine {| lower := lower_ascii |}.
  intros [|c s]; [reflexivity | discriminate].
Defined.

(** ** [str(uuid.uuid4())]

    A UUID is a 128-bit integer; its string form is the 32 lower-case
    hexadecimal digits of that integer, grouped 8-4-4-4-12. *)

Definition hex_digit (d : N) : ascii :=
  match String.get (N.to_nat d) "0123456789abcdef" with
  | Some c => c
  | None => "0"%char
  end.

(** ['%0<width>x' % n] for [n < 16 ^ width]. *)
Fixpoint hex_padded (width : nat) (n : N) : string :=
  match width with
  | O => ""
  | S w => hex_padded w (n / 16) +:+ String (hex_digit (n mod 16)) ""
  end.

Definition uuid_str (u : N) : string :=
  let hex := hex_padded 32 u in
  substring 0 8 hex +:+ "-" +:+ substring 8 4 hex +:+ "-" +:+
  substring 12 4 hex +:+ "-" +:+ substring 16 4 hex +:+ "-" +:+
  substring 20 12 hex.

(** ** The stored document and the integration's state *)

Record document : Type := Document {
  schema_version : value;
  gemini_api_key : value;
  profiles : list (gmap string value)
}.

Inductive level : Type := INFO | WARNING.

Record log_record : Type := LogRecord {
  levelname : level;
  msg : string;
  args : list value
}.

(** [hass.data[DOMAIN]["data"]] is the in-memory mirror; [store] lists the
    payloads handed to [store.async_save], newest first; [log] is what
    [_LOGGER] received, newest first. *)
Record hass : Type := Hass {
  data : document;
  store : list document;
  log : list log_record
}.

(** ** Handlers: state passing with exceptions

    A handler runs on the integration's state and either returns or
    raises; in both cases it leaves a state behind. *)

Definition handler (A : Type) : Type := hass -> result A * hass.

#[global] Instance handler_ret : MRet handler := fun A a h => (Ok a, h).
#[global] Instance handler_bind : MBind handler := fun A B f m h =>
  match m h with
  | (Ok a, h') => f a h'
  | (Raise e, h') => (Raise e, h')
  end.

Definition raise {A : Type} (e : exn) : handler A := fun h => (Raise e, h).

(** Evaluate a fallible expression that does not touch the state. *)
Definition eval {A : Type} (r : result A) : handler A := fun h => (r, h).

Definition read_data : handler document := fun h => (Ok (data h), h).

Definition write_data (d : document) : handler unit := fun h =>
  (Ok tt, {| data := d; store := store h; log := log h |}).

Definition logger (lv : level) (m : string) (a : list value) : handler unit :=
  fun h =>
    (Ok tt, {| data := data h; store := store h;
               log := LogRecord lv m a :: log h |}).

(** [_save]: persist the in-memory document. *)
Definition _save : handler unit := fun h =>
  (Ok tt, {| data := data h; store := data h :: store h; log := log h |}).

(** ** Service calls and the host's collaborators *)

(** The keys of [call.data] the handlers read ([None]: key absent), and
    [call.context.user_id].  The ["profile"] entry, when present, is a
    mapping. *)
Record ServiceCall : Type := {
  data_api_key : option value;
  data_profile : option (gmap string value);
  data_profile_id : option value;
  data_name : option value;
  data_exclude_id : option value;
  context_user_id : option string
}.

(** [call.data.get(k)] and [call.data.get(k, dflt)]. *)
Definition call_get {A : Type} (o : option A) (dflt : A) : A := default dflt o.

Record User : Type := { user_name : value }.

(** What the host supplies during one call: the integer of the UUID drawn
    by [uuid.uuid4()], [dt_util.utcnow().isoformat()], and the user
    registry behind [hass.auth.async_get_user]. *)
Record host : Type := {
  uuid4 : N;
  utcnow_isoformat : string;
  async_get_user : string -> option User
}.

(** ** The integration *)

Section Integration.

Context {L : StrLower}.

(** [const.PROFILE_SCHEMA_VERSION]; the handlers only store it. *)
Variable PROFILE_SCHEMA_VERSION : value.

(** [async_setup]: the document loaded from storage, or the empty one
    when nothing was stored yet. *)
Definition empty_document : document :=
  {| schema_version := PROFILE_SCHEMA_VERSION;
     gemini_api_key := VNone;
     profiles := [] |}.

Definition async_setup (loaded : option document) : hass :=
  {| data := default empty_document loaded;
     store := [];
     log := [LogRecord INFO "HA Live Config integration loaded successfully" []] |}.

Definition write_profiles (ps : list (gmap string value)) : handler unit :=
  d ← read_data;
  write_data {| schema_version := schema_version d;
                gemini_api_key := gemini_api_key d;
                profiles := ps |}.

(** *** Service: get_config *)

Record config_response : Type := {
  resp_gemini_api_key : value;
  resp_profiles : list (gmap string value)
}.

Definition handle_get_config (call : ServiceCall) : handler config_response :=
  d ← read_data;
  mret {| resp_gemini_api_key := gemini_api_key d;
          resp_profiles := profiles d |}.

(** *** Service: set_gemini_key *)

Definition handle_set_gemini_key (call : ServiceCall) : handler unit :=
  let api_key := call_get (data_api_key call) VNone in
  (if negb (is_none api_key) && negb (py_eq api_key (VStr "")) then
     looks_valid ← eval (str_startswith api_key "AIza");
     if negb looks_valid
     then logger WARNING "API key doesn't look like a valid Gemini key" []
     else mret tt
   else mret tt);;
  let api_key := if py_eq api_key (VStr "") then VNone else api_key in
  d ← read_data;
  write_data {| schema_version := schema_version d;
                gemini_api_key := api_key;
                profiles := profiles d |};;
  _save;;
  logger INFO "Gemini API key %s"
         [VStr (if truthy api_key then "set" else "cleared")].

(** *** Service: upsert_profile *)

(** The first stored profile with the same lower-cased name and another
    id: [next((p for p in profiles if ...), None)]. *)
Fixpoint existing_with_name (ps : list (gmap string value))
    (profile : gmap string value) (profile_id : value)
    : result (option (gmap string value)) :=
  match ps with
  | [] => Ok None
  | p :: rest =>
      pn ← getitem p "name";
      pl ← str_lower pn;
      n ← getitem profile "name";
      nl ← str_lower n;
      if bool_decide (pl = nl) then
        pid ← getitem p "id";
        if negb (py_eq pid profile_id) then Ok (Some p)
        else existing_with_name rest profile profile_id
      else existing_with_name rest profile profile_id
  end.

(** The first index whose profile has the id of [profile]:
    [next((i for i, p in enumerate(profiles) if ...), None)]. *)
Fixpoint existing_idx_from (i : nat) (ps : list (gmap string value))
    (profile : gmap string value) : result (option nat) :=
  match ps with
  | [] => Ok None
  | p :: rest =>
      pid ← getitem p "id";
      id ← getitem profile "id";
      if py_eq pid id then Ok (Some i)
      else existing_idx_from (S i) rest profile
  end.

Definition existing_idx := existing_idx_from 0.

(** [user.name if user else None], behind the [call.context.user_id] test. *)
Definition modified_by (w : host) (call : ServiceCall) : value :=
  match context_user_id call with
  | Some uid =>
      if negb (bool_decide (uid = "")) then
        match async_get_user w uid with
        | Some user => user_name user
        | None => VNone
        end
      else VNone
  | None => VNone
  end.

(** The profile as it is stored: id assigned, metadata added. *)
Definition stamped (w : host) (call : ServiceCall)
    (profile : gmap string value) : gmap string value :=
  let profile_id := dict_get profile "id" in
  let profile :=
    if negb (truthy profile_id)
    then <["id" := VStr (uuid_str (uuid4 w))]> profile
    else profile in
  let profile := <["last_modified" := VStr (utcnow_isoformat w)]> profile in
  let profile := <["schema_version" := PROFILE_SCHEMA_VERSION]> profile in
  <["modified_by" := modified_by w call]> profile.

Definition missing_name : exn := ValueError "Profile must have a name" [].

Definition name_collision (n : value) : exn :=
  ValueError "A profile named '{}' already exists" [n].

Definition handle_upsert_profile (w : host) (call : ServiceCall)
    : handler (gmap string value) :=
  let profile := call_get (data_profile call) ∅ in
  d ← read_data;
  let ps := profiles d in
  if negb (truthy (dict_get profile "name")) then raise missing_name else
  let profile_id := dict_get profile "id" in
  found ← eval (existing_with_name ps profile profile_id);
  if match found with Some p => dict_truthy p | None => false end then
    n ← eval (getitem profile "name");
    raise (name_collision n)
  else
  let profile := stamped w call profile in
  idx ← eval (existing_idx ps profile);
  n ← eval (getitem profile "name");
  match idx with
  | Some i =>
      write_profiles (<[i := profile]> ps);;
      logger INFO "Updated profile: %s" [n]
  | None =>
      write_profiles (ps ++ [profile]);;
      logger INFO "Created profile: %s" [n]
  end;;
  _save;;
  id ← eval (getitem profile "id");
  mret ({["id" := id]} : gmap string value).

(** *** Service: delete_profile *)

(** [[p for p in profiles if p["id"] != profile_id]]. *)
Fixpoint without_id (ps : list (gmap string value)) (profile_id : value)
    : result (list (gmap string value)) :=
  match ps with
  | [] => Ok []
  | p :: rest =>
      pid ← getitem p "id";
      kept ← without_id rest profile_id;
      Ok (if negb (py_eq pid profile_id) then p :: kept else kept)
  end.

Definition handle_delete_profile (call : ServiceCall) : handler unit :=
  let profile_id := call_get (data_profile_id call) VNone in
  d ← read_data;
  let ps := profiles d in
  let original_count := length ps in
  kept ← eval (without_id ps profile_id);
  write_profiles kept;;
  d' ← read_data;
  if (length (profiles d') <? original_count)%nat then
    _save;;
    logger INFO "Deleted profile: %s" [profile_id]
  else
    logger WARNING "Profile not found for deletion: %s" [profile_id].

(** *** Service: check_profile_name *)

Record name_check : Type := { available : bool }.

(** [any(p["name"].lower() == name.lower() and p["id"] != exclude_id
        for p in profiles)]. *)
Fixpoint name_taken (ps : list (gmap string value))
    (name : value) (exclude_id : value) : result bool :=
  match ps with
  | [] => Ok false
  | p :: rest =>
      pn ← getitem p "name";
      pl ← str_lower pn;
      nl ← str_lower name;
      if bool_decide (pl = nl) then
        pid ← getitem p "id";
        if negb (py_eq pid exclude_id) then Ok true
        else name_taken rest name exclude_id
      else name_taken rest name exclude_id
  end.

Definition handle_check_profile_name (call : ServiceCall)
    : handler name_check :=
  let name := call_get (data_name call) (VStr "") in
  let exclude_id := call_get (data_exclude_id call) VNone in
  d ← read_data;
  taken ← eval (name_taken (profiles d) name exclude_id);
  mret {| available := negb taken |}.

(** *** Sequences of service calls *)

Inductive request : Type :=
  | GetConfig (call : ServiceCall)
  | SetGeminiKey (call : ServiceCall)
  | UpsertProfile (w : host) (call : ServiceCall)
  | DeleteProfile (call : ServiceCall)
  | CheckProfileName (call : ServiceCall).

(** The state a request leaves behind, whether its handler returned or
    raised. *)
Definition serve (h : hass) (r : request) : hass :=
  match r with
  | GetConfig call => (handle_get_config call h).2
  | SetGeminiKey call => (handle_set_gemini_key call h).2
  | UpsertProfile w call => (handle_upsert_profile w call h).2
  | DeleteProfile call => (handle_delete_profile call h).2
  | CheckProfileName call => (handle_check_profile_name call h).2
  end.

Definition run (rs : list request) (h : hass) : hass := foldl serve h rs.

(** The states reached from a fresh installation. *)
Definition reachable (h : hass) : Prop :=
  ∃ rs, h = run rs (async_setup None).

End Integration.

(** ** Vocabulary of the properties *)

(** Kinds of stores.  [has_ids]: every stored profile has an ["id"] key.
    [scannable]: it also has a string name, so that the name scans run
    through.  [well_formed]: names and ids are non-empty strings. *)
Definition has_ids (ps : list (gmap string value)) : Prop :=
  Forall (λ p, is_Some (p !! "id")) ps.

Definition scannable (ps : list (gmap string value)) : Prop :=
  Forall (λ p, (∃ n, p !! "name" = Some (VStr n)) ∧ is_Some (p !! "id")) ps.

Definition nonempty_str (o : option value) : bool :=
  match o with
  | Some (VStr s) => negb (bool_decide (s = ""))
  | _ => false
  end.

Definition written (p : gmap string value) : bool :=
  nonempty_str (p !! "name") && nonempty_str (p !! "id").

Definition well_formed (ps : list (gmap string value)) : Prop :=
  Forall (λ p, written p = true) ps.

(** [p["id"] != pid], for a profile that has an id. *)
Definition id_differs (pid : value) (p : gmap string value) : bool :=
  match p !! "id" with
  | Some i => negb (py_eq i pid)
  | None => false
  end.

(** The id of a profile up to [==]. *)
Definition id_key (p : gmap string value) : option value :=
  norm <$> p !! "id".

(** What [upsert_profile] leaves in a stored profile: a truthy name and
    a truthy id. *)
Definition stored_ok (p : gmap string value) : Prop :=
  (∃ v, p !! "name" = Some v ∧ truthy v = true) ∧
  (∃ v, p !! "id" = Some v ∧ truthy v = true).

(** Exceptions other than the handlers' own [ValueError]s. *)
Definition lookup_error (e : exn) : Prop :=
  match e with
  | ValueError _ _ => False
  | KeyError _ | AttributeError _ => True
  end.

(** The state a successful upsert leaves behind: the stamped profile [q]
    written at [idx] or appended, the write logged, the document saved. *)
Definition upserted (h : hass) (q : gmap string value)
    (idx : option nat) (n : value) : hass :=
  let d := {| schema_version := schema_version (data h);
              gemini_api_key := gemini_api_key (data h);
              profiles := match idx with
                          | Some i => <[i := q]> (profiles (data h))
                          | None => profiles (data h) ++ [q]
                          end |} in
  {| data := d;
     store := d :: store h;
     log := LogRecord INFO
              (match idx with
               | Some _ => "Updated profile: %s"
               | None => "Created profile: %s"
               end) [n] :: log h |}.

Section Vocabulary.

Context {L : StrLower}.

(** The name of a profile, compared without regard to case. *)
Definition ci_name (p : gmap string value) : option string :=
  match p !! "name" with
  | Some (VStr n) => Some (lower n)
  | _ => None
  end.

(** Any two stored profiles have string names that differ even when
    compared case-insensitively. *)
Definition names_unique (ps : list (gmap string value)) : Prop :=
  ∀ i j p q,
    ps !! i = Some p → ps !! j = Some q → i ≠ j →
    ∃ n m, p !! "name" = Some (VStr n) ∧ q !! "name" = Some (VStr m) ∧
           lower n ≠ lower m.

(** Some stored profile with another id has the name [n], up to case. *)
Definition collides (ps : list (gmap string value))
    (n : string) (pid : value) : Prop :=
  ∃ p m i, p ∈ ps ∧ p !! "name" = Some (VStr m) ∧ lower m = lower n ∧
           p !! "id" = Some i ∧ py_eq i pid = false.

Definition clashes (n : string) (pid : value) (p : gmap string value) : bool :=
  bool_decide (ci_name p = Some (lower n)) && id_differs pid p.

(** What every reachable profile list satisfies: truthy names and ids,
    ids distinct under [==], and either string names that are distinct
    up to case or at most one profile. *)
Definition invariant (ps : list (gmap string value)) : Prop :=
  Forall stored_ok ps ∧
  NoDup (id_key <$> ps) ∧
  ((Forall (λ p, ∃ n, p !! "name" = Some (VStr n)) ps ∧
    NoDup (ci_name <$> ps)) ∨
   (length ps ≤ 1)%nat).

End Vocabulary.

(** ** Sample calls and stores *)

Definition bare_call : ServiceCall :=
  {| data_api_key := None; data_profile := None; data_profile_id := None;
     data_name := None; data_exclude_id := None; context_user_id := None |}.

Definition key_call (k : value) : ServiceCall :=
  {| data_api_key := Some k; data_profile := None; data_profile_id := None;
     data_name := None; data_exclude_id := None; context_user_id := None |}.

Definition upsert_call (p : gmap string value) (uid : option string)
    : ServiceCall :=
  {| data_api_key := None; data_profile := Some p; data_profile_id := None;
     data_name := None; data_exclude_id := None; context_user_id := uid |}.

Definition delete_call (pid : value) : ServiceCall :=
  {| data_api_key := None; data_profile := None; data_profile_id := Some pid;
     data_name := None; data_exclude_id := None; context_user_id := None |}.

Definition check_call (n : value) (ex : option value) : ServiceCall :=
  {| data_api_key := None; data_profile := None; data_profile_id := None;
     data_name := Some n; data_exclude_id := ex; context_user_id := None |}.

Definition sample_host : host :=
  {| uuid4 := 0x1234567890abcdef1234567890abcdef;
     utcnow_isoformat := "2024-05-01T12:00:00+00:00";
     async_get_user := λ uid,
       if bool_decide (uid = "u1") then Some {| user_name := VStr "Ann" |}
       else None |}.

Definition sample_version : value := VInt 1.

Definition sample_uuid : value :=
  VStr "12345678-90ab-cdef-1234-567890abcdef".

Definition fresh : hass := async_setup sample_version None.

Definition home_call : ServiceCall :=
  upsert_call {["name" := VStr "Home"]} (Some "u1").

Definition office_call : ServiceCall :=
  upsert_call {["name" := VStr "Office"; "id" := VStr "x"]} None.

(** The two profiles as they are stored. *)
Definition home : gmap string value :=
  stamped sample_version sample_host home_call {["name" := VStr "Home"]}.

Definition office : gmap string value :=
  stamped sample_version sample_host office_call
    {["name" := VStr "Office"; "id" := VStr "x"]}.

(** A store holding "Home", created by an upsert, and the store after
    "Office" was added under the id ["x"]. *)
Definition one_profile : hass :=
  (handle_upsert_profile sample_version sample_host home_call fresh).2.

Definition two_profiles : hass :=
  (handle_upsert_profile sample_version sample_host office_call
     one_profile).2.

(** A store as loaded from a document holding the given profiles. *)
Definition loaded_store (ps : list (gmap string value)) : hass :=
  async_setup sample_version
    (Some {| schema_version := sample_version;
             gemini_api_key := VNone;
             profiles := ps |}).

(** * Properties *)

(** ** Values and strings *)

Lemma append_nonempty_r (a b : string) : b ≠ "" → a +:+ b ≠ "".
Proof.
  intros Hb. destruct a as [|c a]; simpl; [exact Hb | discriminate].
Qed.

Lemma uuid_str_nonempty (u : N) : uuid_str u ≠ "".
Proof.
  unfold uuid_str. cbv zeta.
  generalize (hex_padded 32 u). intros hex.
  apply append_nonempty_r. discriminate.
Qed.

Lemma truthy_VStr (s : string) : truthy (VStr s) = true ↔ s ≠ "".
Proof. simpl. by rewrite negb_true_iff, bool_decide_eq_false. Qed.

Lemma norm_float_cases (m e : Z) :
  (m = 0%Z ∧ norm_float m e = VInt 0) ∨
  (m ≠ 0%Z ∧ ((∃ n, n ≠ 0%Z ∧ norm_float m e = VInt n) ∨
              (∃ m' e', m' ≠ 0%Z ∧ norm_float m e = VFloat m' e'))).
Proof.
  destruct m as [|p|p]; [by left | right..]; (split; [done|]);
    unfold norm_float; destruct (strip_pos p e) as [p' e'];
    destruct (0 <=? e')%Z eqn:He.
  - left. eexists. split; [|done]. apply Z.leb_le in He.
    pose proof (Z.pow_pos_nonneg 2 e'). nia.
  - right. eexists _, _. split; [|done]. done.
  - left. eexists. split; [|done]. apply Z.leb_le in He.
    pose proof (Z.pow_pos_nonneg 2 e'). nia.
  - right. eexists _, _. split; [|done]. done.
Qed.

Lemma truthy_norm (v : value) : truthy (norm v) = truthy v.
Proof.
  destruct v as [|[]|n|m e|s|l|kvs]; simpl; try done.
  - destruct (norm_float_cases m e)
      as [[-> ->] | [Hm [(n & Hn & ->) | (m' & e' & Hm' & ->)]]]; simpl.
    + done.
    + by rewrite !bool_decide_eq_false_2.
    + by rewrite !bool_decide_eq_false_2.
  - destruct l; done.
  - destruct kvs as [|[k v] kvs]; [done|]. simpl.
    rewrite bool_decide_eq_false_2; [done|].
    rewrite map_to_list_empty_iff. apply insert_non_empty.
Qed.

Lemma py_eq_true (a b : value) : py_eq a b = true ↔ norm a = norm b.
Proof. unfold py_eq. apply bool_decide_eq_true. Qed.

Lemma py_eq_false (a b : value) : py_eq a b = false ↔ norm a ≠ norm b.
Proof. unfold py_eq. apply bool_decide_eq_false. Qed.

Lemma py_eq_refl (a : value) : py_eq a a = true.
Proof. by apply py_eq_true. Qed.

Lemma py_eq_truthy (a b : value) :
  py_eq a b = true → truthy a = truthy b.
Proof.
  intros H%py_eq_true. by rewrite <- (truthy_norm a), H, truthy_norm.
Qed.

Lemma py_eq_str (a : value) (s : string) :
  py_eq a (VStr s) = true ↔ a = VStr s.
Proof.
  rewrite py_eq_true. simpl. destruct a as [|[]|n|m e|t|l|kvs]; simpl;
    try (split; congruence).
  destruct (norm_float_cases m e)
    as [[_ ->] | [_ [(n & _ & ->) | (m' & e' & _ & ->)]]];
    split; congruence.
Qed.

Lemma falsy_cases (d : gmap string value) (k : string) :
  d !! k = None ∨ d !! k = Some VNone ∨ d !! k = Some (VStr "") →
  truthy (dict_get d k) = false.
Proof. unfold dict_get. by intros [-> | [-> | ->]]. Qed.

Lemma dict_get_Some (d : gmap string value) (k : string) (v : value) :
  d !! k = Some v → dict_get d k = v.
Proof. unfold dict_get. by intros ->. Qed.

Lemma dict_get_truthy (d : gmap string value) (k : string) :
  truthy (dict_get d k) = true → d !! k = Some (dict_get d k).
Proof. unfold dict_get. by destruct (d !! k). Qed.

(** ** Lists updated in place *)

Lemma NoDup_insert_fresh {A : Type} (l : list A) (i : nat) (x : A) :
  NoDup l →
  (∀ j y, l !! j = Some y → j ≠ i → y ≠ x) →
  NoDup (<[i := x]> l).
Proof.
  intros Hnd Hfresh. apply NoDup_alt. intros j1 j2 y H1 H2.
  destruct (decide (j1 = i)) as [->|Hj1]; destruct (decide (j2 = i)) as [->|Hj2].
  - done.
  - rewrite list_lookup_insert_ne in H2 by done.
    apply lookup_lt_Some in H1 as Hlt. rewrite length_insert in Hlt.
    rewrite list_lookup_insert_eq in H1 by done. injection H1 as <-.
    exfalso. by eapply Hfresh.
  - rewrite list_lookup_insert_ne in H1 by done.
    apply lookup_lt_Some in H2 as Hlt. rewrite length_insert in Hlt.
    rewrite list_lookup_insert_eq in H2 by done. injection H2 as <-.
    exfalso. by eapply Hfresh.
  - rewrite list_lookup_insert_ne in H1 by done.
    rewrite list_lookup_insert_ne in H2 by done.
    eapply NoDup_alt; eauto.
Qed.

Lemma NoDup_snoc_fresh {A : Type} (l : list A) (x : A) :
  NoDup l → x ∉ l → NoDup (l ++ [x]).
Proof.
  intros Hnd Hx. apply NoDup_app. split; [done|]. split.
  - intros y Hy Hy'. apply list_elem_of_singleton in Hy'. by subst.
  - apply NoDup_singleton.
Qed.

Lemma filter_all {A : Type} (P : A → Prop) `{∀ x, Decision (P x)}
    (l : list A) :
  (∀ x, x ∈ l → P x) → filter P l = l.
Proof.
  induction l as [|x l IH]; intros Hall; [done|].
  rewrite filter_cons, decide_True by (apply Hall; left).
  f_equal. apply IH. intros y Hy. apply Hall. by right.
Qed.

Lemma filter_full_length {A : Type} (P : A → Prop) `{∀ x, Decision (P x)}
    (l : list A) :
  (length l ≤ length (filter P l))%nat → filter P l = l.
Proof.
  induction l as [|x l IH]; [done|]. rewrite filter_cons.
  destruct (decide (P x)); simpl; intros Hlen.
  - f_equal. apply IH. lia.
  - pose proof (length_filter P l). lia.
Qed.

Lemma existsb_find {A : Type} (f : A → bool) (l : list A) :
  existsb f l = true ↔ is_Some (List.find f l).
Proof.
  induction l as [|x l IH]; simpl.
  - split; [discriminate | intros [? [=]]].
  - destruct (f x); simpl; [split; eauto | exact IH].
Qed.

(** ** Kinds of stores *)

Lemma written_inv (p : gmap string value) :
  written p = true →
  ∃ n i, p !! "name" = Some (VStr n) ∧ n ≠ "" ∧
         p !! "id" = Some (VStr i) ∧ i ≠ "".
Proof.
  unfold written, nonempty_str. intros H.
  apply andb_true_iff in H as [Hn Hi].
  destruct (p !! "name") as [[| | | |n| |]|]; try discriminate.
  destruct (p !! "id") as [[| | | |i| |]|]; try discriminate.
  apply negb_true_iff, bool_decide_eq_false in Hn, Hi.
  by exists n, i.
Qed.

Lemma well_formed_scannable ps : well_formed ps → scannable ps.
Proof.
  intros Hwf. eapply Forall_impl; [exact Hwf|].
  intros p (n & i & Hn & _ & Hi & _)%written_inv.
  rewrite Hn, Hi. eauto.
Qed.

Lemma scannable_has_ids ps : scannable ps → has_ids ps.
Proof. intros H. eapply Forall_impl; [exact H|]. by intros p [_ ?]. Qed.

Lemma well_formed_filter (P : gmap string value → Prop)
    `{∀ p, Decision (P p)} ps :
  well_formed ps → well_formed (filter P ps).
Proof.
  intros Hwf. apply Forall_forall. intros p [_ Hp]%list_elem_of_filter.
  eapply Forall_forall in Hwf; eauto.
Qed.

(** ** The scans over the stored profiles *)

Section Scans.

Context {L : StrLower}.
Implicit Types (p q profile : gmap string value) (ps : list (gmap string value)).

Lemma ci_name_of p n : p !! "name" = Some (VStr n) → ci_name p = Some (lower n).
Proof. unfold ci_name. by intros ->. Qed.

Lemma clashes_true n pid p :
  clashes n pid p = true ↔
  ∃ m i, p !! "name" = Some (VStr m) ∧ lower m = lower n ∧
         p !! "id" = Some i ∧ py_eq i pid = false.
Proof.
  unfold clashes, ci_name, id_differs.
  rewrite andb_true_iff, bool_decide_eq_true. split.
  - intros [Hn Hi].
    destruct (p !! "name") as [[| | | |m| |]|]; try discriminate.
    destruct (p !! "id") as [i|]; [|discriminate].
    exists m, i. apply negb_true_iff in Hi. split_and!; congruence.
  - intros (m & i & -> & Hl & -> & Hne). rewrite Hl, Hne. done.
Qed.

Lemma find_clashes_collides ps n pid :
  is_Some (List.find (clashes n pid) ps) ↔ collides ps n pid.
Proof.
  split.
  - intros [p Hp]. apply find_some in Hp as [Hin Hc].
    apply list_elem_of_In in Hin.
    apply clashes_true in Hc as (m & i & ? & ? & ? & ?).
    by exists p, m, i.
  - intros (p & m & i & Hin & Hm & Hl & Hi & Hne).
    destruct (List.find (clashes n pid) ps) eqn:E; [eauto|].
    exfalso. eapply find_none in E; [|by apply list_elem_of_In].
    assert (clashes n pid p = true) as Hc; [|congruence].
    apply clashes_true. by exists m, i.
Qed.

Lemma existing_with_name_scan ps profile pid n :
  scannable ps → profile !! "name" = Some (VStr n) →
  existing_with_name ps profile pid = Ok (List.find (clashes n pid) ps).
Proof.
  intros Hsc Hname. induction Hsc as [|p ps [[m Hm] [i Hi]] _ IH]; [done|].
  simpl. unfold getitem, clashes, ci_name, id_differs.
  rewrite Hm, Hi, Hname. simpl.
  destruct (decide (lower m = lower n)) as [Hl|Hl].
  - rewrite (bool_decide_eq_true_2 _ Hl). rewrite Hl.
    rewrite (bool_decide_eq_true_2 (Some (lower n) = Some (lower n)) eq_refl).
    simpl. destruct (py_eq i pid); simpl; [exact IH | done].
  - rewrite (bool_decide_eq_false_2 _ Hl).
    rewrite (bool_decide_eq_false_2 (Some (lower m) = Some (lower n)))
      by congruence.
    exact IH.
Qed.

(** Both name scans evaluate the same test on the same profiles in the
    same order. *)
Lemma name_taken_existing ps profile n ex :
  profile !! "name" = Some (VStr n) →
  name_taken ps (VStr n) ex =
  match existing_with_name ps profile ex with
  | Ok found => Ok (bool_decide (is_Some found))
  | Raise e => Raise e
  end.
Proof.
  intros Hname. induction ps as [|p ps IH]; [done|].
  simpl. unfold getitem. rewrite Hname.
  destruct (p !! "name") as [pn|]; simpl; [|done].
  destruct (str_lower pn) as [pl|]; simpl; [|done].
  case_bool_decide; [|exact IH].
  destruct (p !! "id") as [pid|]; simpl; [|done].
  destruct (py_eq pid ex); simpl; [exact IH | reflexivity].
Qed.

Lemma existing_with_name_Some ps profile pid p :
  existing_with_name ps profile pid = Ok (Some p) → dict_truthy p = true.
Proof.
  induction ps as [|p0 ps IH]; [discriminate|].
  simpl. unfold getitem.
  destruct (p0 !! "name") as [pn|] eqn:Hpn; simpl; [|discriminate].
  destruct (str_lower pn); simpl; [|discriminate].
  destruct (profile !! "name") as [n|]; simpl; [|discriminate].
  destruct (str_lower n); simpl; [|discriminate].
  case_bool_decide; [|exact IH].
  destruct (p0 !! "id"); simpl; [|discriminate].
  destruct (py_eq _ _); simpl; [exact IH|].
  intros [= <-]. unfold dict_truthy.
  apply negb_true_iff, bool_decide_eq_false. intros ->.
  by rewrite lookup_empty in Hpn.
Qed.

Lemma existing_with_name_found ps profile pid found :
  existing_with_name ps profile pid = Ok found →
  match found with Some p => dict_truthy p | None => false end
  = bool_decide (is_Some found).
Proof.
  destruct found as [p|]; intros H.
  - rewrite (existing_with_name_Some _ _ _ _ H).
    by rewrite bool_decide_eq_true_2 by eauto.
  - symmetry. apply bool_decide_eq_false. by intros [? [=]].
Qed.

Lemma existing_with_name_raise ps profile pid e :
  existing_with_name ps profile pid = Raise e → lookup_error e.
Proof.
  induction ps as [|p ps IH]; [discriminate|]. simpl. unfold getitem.
  destruct (p !! "name") as [pn|]; simpl; [|by intros [= <-]].
  destruct pn; simpl; try by intros [= <-].
  destruct (profile !! "name") as [n|]; simpl; [|by intros [= <-]].
  destruct n; simpl; try by intros [= <-].
  case_bool_decide; [|done].
  destruct (p !! "id"); simpl; [|by intros [= <-]].
  destruct (py_eq _ _); simpl; [done | discriminate].
Qed.

(** A scan that gets past a first profile has read two string names. *)
Lemma existing_with_name_cons_ok p ps profile pid found :
  existing_with_name (p :: ps) profile pid = Ok found →
  (∃ m, p !! "name" = Some (VStr m)) ∧
  (∃ n, profile !! "name" = Some (VStr n)).
Proof.
  simpl. unfold getitem.
  destruct (p !! "name") as [[| | | |m| |]|]; simpl; try discriminate.
  destruct (profile !! "name") as [[| | | |n| |]|]; simpl; try discriminate.
  eauto.
Qed.

Lemma existing_with_name_app pre l profile pid n :
  scannable pre → profile !! "name" = Some (VStr n) →
  ¬ collides pre n pid →
  existing_with_name (pre ++ l) profile pid = existing_with_name l profile pid.
Proof.
  intros Hsc Hname.
  induction Hsc as [|p pre [[m Hm] [i Hi]] Hsc IH]; intros Hnc; [done|].
  assert (¬ collides pre n pid) as Hnc'.
  { intros (p' & m' & j & Hin & ?). apply Hnc. exists p', m', j.
    split; [by right | done]. }
  simpl. unfold getitem. rewrite Hm, Hi, Hname. simpl.
  case_bool_decide as Hl; [|by apply IH]. simpl.
  destruct (py_eq i pid) eqn:Hne; simpl; [by apply IH|].
  exfalso. apply Hnc. exists p, m, i.
  split_and!; [by left | done..].
Qed.

Lemma existing_idx_from_Some i ps q k :
  existing_idx_from i ps q = Ok (Some k) →
  ∃ j p a b, k = i + j ∧ ps !! j = Some p ∧
             p !! "id" = Some a ∧ q !! "id" = Some b ∧ py_eq a b = true.
Proof.
  revert i. induction ps as [|p ps IH]; intros i; [discriminate|].
  simpl. unfold getitem.
  destruct (p !! "id") as [pid|] eqn:Hp; [|discriminate].
  destruct (q !! "id") as [id|] eqn:Hq; [|discriminate]. simpl.
  destruct (py_eq pid id) eqn:Hid.
  - intros [= <-]. exists 0, p, pid, id. rewrite Nat.add_0_r. eauto.
  - intros (j & p' & a & b & -> & Hj & Ha & Hb & Heq)%IH.
    exists (S j), p', a, b. split; [lia|]. done.
Qed.

Lemma existing_idx_from_None i ps q :
  existing_idx_from i ps q = Ok None →
  ∀ p, p ∈ ps → ∃ a b, p !! "id" = Some a ∧ q !! "id" = Some b ∧
                       py_eq a b = false.
Proof.
  revert i. induction ps as [|p ps IH]; intros i H p' Hin.
  - by apply elem_of_nil in Hin.
  - simpl in H. unfold getitem in H.
    destruct (p !! "id") as [pid|] eqn:Hp; [|discriminate].
    destruct (q !! "id") as [id|] eqn:Hq; [|discriminate]. simpl in H.
    destruct (py_eq pid id) eqn:Hid; [discriminate|].
    apply elem_of_cons in Hin as [->|Hin].
    + exists pid, id. done.
    + destruct (IH _ H p' Hin) as (a & b & Ha & Hb & Hab).
      exists a, b. split_and!; congruence.
Qed.

Lemma existing_idx_from_total i ps q :
  has_ids ps → is_Some (q !! "id") →
  ∃ r, existing_idx_from i ps q = Ok r.
Proof.
  intros Hids [id Hq]. revert i.
  induction Hids as [|p ps [pid Hp] _ IH]; intros i; [by exists None|].
  simpl. unfold getitem. rewrite Hp, Hq. simpl.
  destruct (py_eq pid id); eauto.
Qed.

Lemma existing_idx_from_raise i ps q e :
  existing_idx_from i ps q = Raise e → lookup_error e.
Proof.
  revert i. induction ps as [|p ps IH]; intros i; [discriminate|].
  simpl. unfold getitem.
  destruct (p !! "id"); simpl; [|by intros [= <-]].
  destruct (q !! "id"); simpl; [|by intros [= <-]].
  destruct (py_eq _ _); [discriminate | apply IH].
Qed.

End Scans.

Lemma without_id_ok ps pid kept :
  without_id ps pid = Ok kept →
  kept = filter (λ p, id_differs pid p) ps.
Proof.
  revert kept. induction ps as [|p ps IH]; intros kept; simpl.
  - by intros [= <-].
  - unfold getitem. destruct (p !! "id") as [i|] eqn:Hi; [|discriminate].
    simpl. destruct (without_id ps pid) as [kept'|]; [|discriminate].
    simpl. intros [= <-]. rewrite filter_cons, (IH kept' eq_refl).
    assert (id_differs pid p = negb (py_eq i pid)) as Hd
        by (unfold id_differs; by rewrite Hi).
    destruct (py_eq i pid); simpl in *.
    + rewrite decide_False; [done|]. rewrite Hd. intros Hf. exact Hf.
    + rewrite decide_True; [done|]. rewrite Hd. exact I.
Qed.

Lemma without_id_total ps pid :
  has_ids ps → ∃ kept, without_id ps pid = Ok kept.
Proof.
  intros Hids. induction Hids as [|p ps [i Hi] _ [kept IH]]; [by eexists|].
  simpl. unfold getitem. rewrite Hi, IH. simpl. eauto.
Qed.

Lemma without_id_missing ps pid (p : gmap string value) :
  p ∈ ps → p !! "id" = None →
  without_id ps pid = Raise (KeyError "id").
Proof.
  intros Hin Hp. induction ps as [|p0 ps IH]; [by apply elem_of_nil in Hin|].
  simpl. unfold getitem. destruct (p0 !! "id") as [i|] eqn:Hi; [|done].
  simpl. apply elem_of_cons in Hin as [->|Hin]; [congruence|].
  by rewrite IH.
Qed.

(** ** The stamped profile *)

Section Stamped.
Context (V : value) (w : host) (call : ServiceCall).
Implicit Types profile : gmap string value.

Lemma stamped_modified_by profile :
  stamped V w call profile !! "modified_by" = Some (modified_by w call).
Proof. unfold stamped. by rewrite lookup_insert_eq. Qed.

Lemma stamped_schema_version profile :
  stamped V w call profile !! "schema_version" = Some V.
Proof.
  unfold stamped. rewrite lookup_insert_ne by done.
  by rewrite lookup_insert_eq.
Qed.

Lemma stamped_last_modified profile :
  stamped V w call profile !! "last_modified"
  = Some (VStr (utcnow_isoformat w)).
Proof.
  unfold stamped. do 2 rewrite lookup_insert_ne by done.
  by rewrite lookup_insert_eq.
Qed.

Lemma stamped_id profile :
  stamped V w call profile !! "id"
  = Some (if truthy (dict_get profile "id") then dict_get profile "id"
          else VStr (uuid_str (uuid4 w))).
Proof.
  unfold stamped. do 3 rewrite lookup_insert_ne by done.
  destruct (truthy (dict_get profile "id")) eqn:Ht; simpl.
  - by apply dict_get_truthy.
  - by rewrite lookup_insert_eq.
Qed.

Lemma stamped_other profile k :
  k ≠ "id" → k ≠ "last_modified" → k ≠ "schema_version" →
  k ≠ "modified_by" →
  stamped V w call profile !! k = profile !! k.
Proof.
  intros. unfold stamped. do 3 rewrite lookup_insert_ne by done.
  destruct (negb _); [by rewrite lookup_insert_ne | done].
Qed.

Lemma stamped_name profile :
  stamped V w call profile !! "name" = profile !! "name".
Proof. by apply stamped_other. Qed.

Lemma stamped_id_truthy profile :
  ∃ v, stamped V w call profile !! "id" = Some v ∧ truthy v = true.
Proof.
  rewrite stamped_id. destruct (truthy (dict_get profile "id")) eqn:Ht.
  - eauto.
  - eexists. split; [done|]. apply truthy_VStr, uuid_str_nonempty.
Qed.

End Stamped.

(** ** What one call does *)

Ltac run_handler :=
  unfold mbind, handler_bind, mret, handler_ret, read_data, write_profiles,
    write_data, eval, raise, logger, _save;
  cbv beta iota zeta.

Section Calls.

Context {L : StrLower}.
Implicit Types (p q profile : gmap string value) (ps : list (gmap string value)).

Lemma upsert_ok_inv V w call h ret h' :
  handle_upsert_profile V w call h = (Ok ret, h') →
  let profile := call_get (data_profile call) ∅ in
  let q := stamped V w call profile in
  let ps := profiles (data h) in
  truthy (dict_get profile "name") = true ∧
  existing_with_name ps profile (dict_get profile "id") = Ok None ∧
  ∃ idx n v,
    existing_idx ps q = Ok idx ∧ q !! "name" = Some n ∧ q !! "id" = Some v ∧
    ret = {["id" := v]} ∧ h' = upserted h q idx n.
Proof.
  unfold handle_upsert_profile. run_handler.
  destruct (truthy _) eqn:Hn; simpl; [|discriminate].
  destruct (existing_with_name _ _ _) as [found|e] eqn:Hf; [|discriminate].
  rewrite (existing_with_name_found _ _ _ _ Hf).
  destruct found as [p|].
  { rewrite bool_decide_eq_true_2 by eauto.
    destruct (getitem _ _); discriminate. }
  rewrite bool_decide_eq_false_2 by (by intros [? [=]]).
  destruct (existing_idx _ _) as [idx|e] eqn:Hidx; [|discriminate].
  unfold getitem.
  destruct (stamped V w call _ !! "name") as [n|] eqn:Hqn; [|discriminate].
  destruct (stamped V w call _ !! "id") as [v|] eqn:Hqv;
    [|destruct idx; discriminate].
  intros Heq. split; [done|]. split; [done|].
  exists idx, n, v. split_and!; [done..| |];
    destruct idx; simpl in Heq; by simplify_eq.
Qed.

Lemma upsert_ok_intro V w call h idx :
  let profile := call_get (data_profile call) ∅ in
  let q := stamped V w call profile in
  let ps := profiles (data h) in
  truthy (dict_get profile "name") = true →
  existing_with_name ps profile (dict_get profile "id") = Ok None →
  existing_idx ps q = Ok idx →
  ∃ v, q !! "id" = Some v ∧
       handle_upsert_profile V w call h
       = (Ok {["id" := v]}, upserted h q idx (dict_get profile "name")).
Proof.
  intros profile q ps Hn Hf Hidx.
  destruct (stamped_id_truthy V w call profile) as (v & Hv & _).
  exists v. split; [done|].
  unfold handle_upsert_profile. run_handler.
  subst profile ps q. rewrite Hn. simpl. rewrite Hf, Hidx. unfold getitem.
  rewrite stamped_name, (dict_get_truthy _ _ Hn), Hv. by destruct idx.
Qed.

Lemma upsert_raise_inv V w call h e h' :
  handle_upsert_profile V w call h = (Raise e, h') → h' = h.
Proof.
  unfold handle_upsert_profile. run_handler.
  destruct (negb _); [by intros [= _ <-]|].
  destruct (existing_with_name _ _ _) as [found|]; [|by intros [= _ <-]].
  destruct (match found with Some p => dict_truthy p | None => false end).
  { destruct (getitem _ _); by intros [= _ <-]. }
  destruct (existing_idx _ _) as [idx|]; [|by intros [= _ <-]].
  destruct (getitem _ "name"); [|by intros [= _ <-]].
  pose proof (stamped_id_truthy V w call (call_get (data_profile call) ∅))
    as (v & Hv & _).
  unfold getitem. rewrite Hv. destruct idx; discriminate.
Qed.

Lemma upsert_missing_name_iff V w call h :
  (handle_upsert_profile V w call h).1 = Raise missing_name ↔
  truthy (dict_get (call_get (data_profile call) ∅) "name") = false.
Proof.
  unfold handle_upsert_profile. run_handler.
  destruct (truthy _) eqn:Hn; simpl; [|done].
  split; [|done]. intros H. exfalso.
  destruct (existing_with_name _ _ _) as [found|e] eqn:Hf.
  - destruct (match found with Some p => dict_truthy p | None => false end).
    { unfold getitem in H.
      destruct (_ !! "name") as [n|]; simpl in H; discriminate. }
    destruct (existing_idx _ _) as [idx|e] eqn:Hidx.
    + unfold getitem in H. rewrite stamped_name in H.
      destruct (_ !! "name") as [n|]; simpl in H; [|discriminate].
      pose proof (stamped_id_truthy V w call
                    (call_get (data_profile call) ∅)) as (v & Hv & _).
      rewrite Hv in H. destruct idx; discriminate.
    + simpl in H. injection H as ->.
      by apply existing_idx_from_raise in Hidx.
  - simpl in H. injection H as ->.
    by apply existing_with_name_raise in Hf.
Qed.

Lemma upsert_ok_stored V w call h ret h' :
  handle_upsert_profile V w call h = (Ok ret, h') →
  let q := stamped V w call (call_get (data_profile call) ∅) in
  let ps := profiles (data h) in
  ∃ k v, q !! "id" = Some v ∧ profiles (data h') !! k = Some q ∧
       ((k < length ps ∧ profiles (data h') = <[k := q]> ps ∧
         ∃ p a, ps !! k = Some p ∧ p !! "id" = Some a ∧ py_eq a v = true) ∨
        (k = length ps ∧ profiles (data h') = (ps ++ [q])%list ∧
         ∀ p, p ∈ ps → ∃ a, p !! "id" = Some a ∧ py_eq a v = false)).
Proof.
  intros (_ & _ & idx & n & v & Hidx & _ & Hv & _ & ->)%upsert_ok_inv q ps.
  fold q ps in Hidx, Hv. destruct idx as [k|]; simpl.
  - apply existing_idx_from_Some in Hidx
      as (j & p & a & b & -> & Hj & Ha & Hb & Hab).
    assert (b = v) as -> by congruence.
    exists j, v. simpl. apply lookup_lt_Some in Hj as Hlt.
    split_and!; [done | by apply list_lookup_insert_eq |]. left.
    split_and!; [done..|]. eauto.
  - exists (length ps), v. split_and!; [done | |].
    + by rewrite lookup_app_r, Nat.sub_diag.
    + right. split_and!; [done..|]. intros p Hp.
      destruct (existing_idx_from_None _ _ _ Hidx p Hp)
        as (a & b & Ha & Hb & Hab).
      exists a. split; [done|]. congruence.
Qed.

(** On a scannable store an upsert of a profile with a non-empty string
    name either hits a collision and changes nothing, or succeeds. *)
Lemma upsert_scan_cases V w call h profile n :
  scannable (profiles (data h)) →
  data_profile call = Some profile →
  profile !! "name" = Some (VStr n) → n ≠ "" →
  let ps := profiles (data h) in
  let q := stamped V w call profile in
  (collides ps n (dict_get profile "id") ∧
   handle_upsert_profile V w call h = (Raise (name_collision (VStr n)), h)) ∨
  (¬ collides ps n (dict_get profile "id") ∧
   ∃ idx v, existing_idx ps q = Ok idx ∧ q !! "id" = Some v ∧
            handle_upsert_profile V w call h
            = (Ok {["id" := v]}, upserted h q idx (VStr n))).
Proof.
  intros Hsc Hcall Hname Hne ps q.
  pose proof (existing_with_name_scan ps profile (dict_get profile "id") n
                Hsc Hname) as Hf.
  assert (truthy (dict_get profile "name") = true) as Hn.
  { rewrite (dict_get_Some _ _ _ Hname). by apply truthy_VStr. }
  destruct (List.find (clashes n (dict_get profile "id")) ps) as [p|] eqn:Hfind.
  - left. split; [apply find_clashes_collides; rewrite Hfind; eauto|].
    pose proof (existing_with_name_Some _ _ _ _ Hf) as Hp.
    unfold handle_upsert_profile. run_handler.
    rewrite Hcall. simpl. rewrite Hn. simpl.
    fold ps. rewrite Hf, Hp. unfold getitem. by rewrite Hname.
  - right. split.
    { intros Hc. apply find_clashes_collides in Hc as [? Hc]. congruence. }
    destruct (stamped_id_truthy V w call profile) as (v0 & Hv0 & _).
    destruct (existing_idx_from_total 0 ps q (scannable_has_ids _ Hsc))
      as [idx Hidx]; [by eexists|].
    exists idx.
    destruct (upsert_ok_intro V w call h idx) as (v & Hv & Heq).
    + by rewrite Hcall.
    + rewrite Hcall. exact Hf.
    + rewrite Hcall. exact Hidx.
    + rewrite Hcall in Hv, Heq. simpl in Hv, Heq.
      rewrite (dict_get_Some _ _ _ Hname) in Heq. eauto.
Qed.

Lemma set_gemini_key_cases call h :
  let api_key := call_get (data_api_key call) VNone in
  (* None or a string: stored, the empty string as None *)
  ((api_key = VNone ∨ ∃ s, api_key = VStr s) ∧
   ∃ h', handle_set_gemini_key call h = (Ok (), h') ∧
         data h' = {| schema_version := schema_version (data h);
                      gemini_api_key :=
                        if bool_decide (api_key = VStr "") then VNone
                        else api_key;
                      profiles := profiles (data h) |} ∧
         store h' = data h' :: store h) ∨
  (* anything else: no [startswith] *)
  ((api_key ≠ VNone ∧ ∀ s, api_key ≠ VStr s) ∧
   handle_set_gemini_key call h = (Raise (AttributeError "startswith"), h)).
Proof.
  intros api_key. subst api_key. unfold handle_set_gemini_key.
  destruct (call_get (data_api_key call) VNone) as [|b|n|m e|s|l|kvs] eqn:E;
    run_handler.
  1: { simpl. left. split; [eauto|]. eexists. split_and!; done. }
  4: { left. split; [eauto|].
       destruct (decide (s = "")) as [->|Hs]; simpl.
       - eexists. split_and!; done.
       - assert (py_eq (VStr s) (VStr "") = false) as ->.
         { apply py_eq_false. simpl. congruence. }
         rewrite (bool_decide_eq_false_2 (VStr s = VStr "")) by congruence.
         simpl. destruct (String.prefix "AIza" s); simpl;
           eexists; split_and!; done. }
  all: right; split; [done|];
    match goal with
    | |- context [py_eq ?v (VStr "")] =>
        assert (py_eq v (VStr "") = false) as ->
          by (destruct (py_eq v (VStr "")) eqn:Hp;
              [by apply py_eq_str in Hp | done])
    end; done.
Qed.

Lemma check_profile_name_state call h :
  (handle_check_profile_name call h).2 = h.
Proof.
  unfold handle_check_profile_name. run_handler.
  by destruct (name_taken _ _ _).
Qed.

Lemma delete_cases call h :
  let pid := call_get (data_profile_id call) VNone in
  let ps := profiles (data h) in
  (∃ e, without_id ps pid = Raise e ∧
        handle_delete_profile call h = (Raise e, h)) ∨
  (∃ h', without_id ps pid = Ok (filter (λ p, id_differs pid p) ps) ∧
         handle_delete_profile call h = (Ok (), h') ∧
         data h' = {| schema_version := schema_version (data h);
                      gemini_api_key := gemini_api_key (data h);
                      profiles := filter (λ p, id_differs pid p) ps |} ∧
         store h' = (if (length (filter (λ p, id_differs pid p) ps)
                         <? length ps)%nat
                     then data h' :: store h else store h)).
Proof.
  intros pid ps. unfold handle_delete_profile. run_handler. fold pid ps.
  destruct (without_id ps pid) as [kept|e] eqn:E; [|left; eauto].
  right. apply without_id_ok in E as ->. simpl.
  destruct (length _ <? length ps)%nat; eexists; split_and!; done.
Qed.

Lemma delete_has_ids call h :
  has_ids (profiles (data h)) →
  let pid := call_get (data_profile_id call) VNone in
  let kept := filter (λ p, id_differs pid p) (profiles (data h)) in
  ∃ h', handle_delete_profile call h = (Ok (), h') ∧
        data h' = {| schema_version := schema_version (data h);
                     gemini_api_key := gemini_api_key (data h);
                     profiles := kept |} ∧
        store h' = (if (length kept <? length (profiles (data h)))%nat
                    then data h' :: store h else store h).
Proof.
  intros Hids pid kept.
  destruct (delete_cases call h) as [(e & E & _) | (h' & _ & ? & ? & ?)].
  - destruct (without_id_total _ (call_get (data_profile_id call) VNone)
                Hids) as [k Hk]. congruence.
  - eauto.
Qed.

End Calls.

(** ** The invariant of the store *)

Section Invariant.

Context {L : StrLower}.
Implicit Types (p q profile : gmap string value) (ps : list (gmap string value)).

Lemma invariant_nil : invariant [].
Proof. split_and!; [constructor | constructor | left; split; constructor]. Qed.

Lemma invariant_filter (P : gmap string value → Prop)
    `{∀ p, Decision (P p)} ps :
  invariant ps → invariant (filter P ps).
Proof.
  intros (Hok & Hids & Hnames). split_and!.
  - apply Forall_forall. intros p [_ Hp]%list_elem_of_filter.
    eapply Forall_forall in Hok; eauto.
  - eapply sublist_NoDup; [exact Hids|]. apply fmap_sublist, sublist_filter.
  - destruct Hnames as [[Hstr Hnd] | Hlen].
    + left. split.
      * apply Forall_forall. intros p [_ Hp]%list_elem_of_filter.
        eapply Forall_forall in Hstr; eauto.
      * eapply sublist_NoDup; [exact Hnd|].
        apply fmap_sublist, sublist_filter.
    + right. pose proof (length_filter P ps). lia.
Qed.

Lemma id_key_of p a : p !! "id" = Some a → id_key p = Some (norm a).
Proof. unfold id_key. by intros ->. Qed.

Lemma invariant_ids ps :
  invariant ps →
  ∀ i j p q a b, ps !! i = Some p → ps !! j = Some q →
                 p !! "id" = Some a → q !! "id" = Some b →
                 py_eq a b = true → i = j.
Proof.
  intros (_ & Hids & _) i j p q a b Hi Hj Ha Hb Hab%py_eq_true.
  eapply NoDup_alt; [exact Hids| |].
  - by rewrite list_lookup_fmap, Hi.
  - rewrite list_lookup_fmap, Hj. simpl.
    by rewrite (id_key_of _ _ Ha), (id_key_of _ _ Hb), Hab.
Qed.

Lemma invariant_names_unique ps : invariant ps → names_unique ps.
Proof.
  intros (_ & _ & Hnames) i j p q Hi Hj Hne.
  destruct Hnames as [[Hstr Hnd] | Hlen].
  - destruct (Forall_lookup_1 _ _ _ _ Hstr Hi) as [n Hn].
    destruct (Forall_lookup_1 _ _ _ _ Hstr Hj) as [m Hm].
    exists n, m. split_and!; [done..|]. intros Hl. apply Hne.
    eapply NoDup_alt; [exact Hnd| |].
    + rewrite list_lookup_fmap, Hi. simpl. by rewrite (ci_name_of _ _ Hn).
    + rewrite list_lookup_fmap, Hj. simpl. rewrite (ci_name_of _ _ Hm).
      by rewrite Hl.
  - apply lookup_lt_Some in Hi, Hj. lia.
Qed.

Lemma invariant_has_ids ps : invariant ps → has_ids ps.
Proof.
  intros (Hok & _). eapply Forall_impl; [exact Hok|].
  intros p [_ (v & -> & _)]. eauto.
Qed.

(** With a string name at the head, the store has string names
    throughout. *)
Lemma invariant_named_head p0 ps :
  invariant (p0 :: ps) → (∃ m, p0 !! "name" = Some (VStr m)) →
  Forall (λ p, ∃ n, p !! "name" = Some (VStr n)) (p0 :: ps) ∧
  NoDup (ci_name <$> p0 :: ps).
Proof.
  intros (_ & _ & [Hgood | Hlen]) Hm; [done|].
  simpl in Hlen. assert (ps = []) as -> by (destruct ps; [done | simpl in *; lia]).
  split; [by constructor | apply NoDup_singleton].
Qed.

Lemma invariant_scannable ps :
  invariant ps → Forall (λ p, ∃ n, p !! "name" = Some (VStr n)) ps →
  scannable ps.
Proof.
  intros Hinv Hstr. apply Forall_forall. intros p Hp. split.
  - eapply Forall_forall in Hstr; eauto.
  - pose proof (invariant_has_ids _ Hinv) as Hids.
    eapply Forall_forall in Hids; eauto.
Qed.

Lemma invariant_upsert V w call ps profile idx :
  invariant ps →
  truthy (dict_get profile "name") = true →
  existing_with_name ps profile (dict_get profile "id") = Ok None →
  let q := stamped V w call profile in
  existing_idx ps q = Ok idx →
  invariant (match idx with
             | Some i => <[i := q]> ps
             | None => (ps ++ [q])%list
             end).
Proof.
  intros Hinv Hn Hf q Hidx.
  destruct (stamped_id_truthy V w call profile) as (v & Hv & Hvt).
  fold q in Hv.
  assert (stored_ok q) as Hq.
  { split; [|eauto]. exists (dict_get profile "name"). split; [|done].
    subst q. rewrite stamped_name. by apply dict_get_truthy. }
  destruct ps as [|p0 rest].
  { injection Hidx as <-. simpl. split_and!.
    - by constructor.
    - apply NoDup_singleton.
    - right. simpl. lia. }
  destruct (existing_with_name_cons_ok _ _ _ _ _ Hf) as [Hm0 [n Hname]].
  destruct (invariant_named_head _ _ Hinv Hm0) as [Hstr Hnd].
  remember (p0 :: rest) as ps eqn:Eps. clear Eps Hm0.
  pose proof (invariant_scannable _ Hinv Hstr) as Hsc.
  destruct Hinv as (Hok & Hids & _).
  assert (q !! "name" = Some (VStr n)) as Hqn
      by (subst q; by rewrite stamped_name).
  rewrite (existing_with_name_scan _ _ _ n Hsc Hname) in Hf.
  injection Hf as Hfind.
  (* a stored profile with the new name carries the new id *)
  assert (∀ p, p ∈ ps → ci_name p = Some (lower n) →
               ∃ a, p !! "id" = Some a ∧ py_eq a v = true) as Hsame.
  { intros p Hin Hci.
    pose proof (proj1 (Forall_forall _ _) Hok p Hin) as [_ (a & Ha & Hat)].
    exists a. split; [done|].
    destruct (py_eq a (dict_get profile "id")) eqn:Hpid.
    - pose proof (py_eq_truthy _ _ Hpid) as Ht. rewrite Hat in Ht.
      subst q. rewrite stamped_id, <- Ht in Hv. by injection Hv as <-.
    - exfalso. eapply find_none in Hfind; [|by apply list_elem_of_In].
      assert (clashes n (dict_get profile "id") p = true); [|congruence].
      unfold clashes, id_differs. rewrite Hci, Ha, Hpid.
      by rewrite bool_decide_eq_true_2. }
  destruct idx as [k|].
  - apply existing_idx_from_Some in Hidx
      as (j & pj & a & b & -> & Hj & Ha & Hb & Hab).
    assert (b = v) as -> by congruence. simpl. split_and!.
    + by apply Forall_insert.
    + rewrite list_fmap_insert, (id_key_of _ _ Hv).
      apply py_eq_true in Hab as <-. rewrite list_insert_id; [done|].
      by rewrite list_lookup_fmap, Hj, <- (id_key_of _ _ Ha).
    + left. split; [apply Forall_insert; eauto|].
      rewrite list_fmap_insert, (ci_name_of _ _ Hqn).
      apply NoDup_insert_fresh; [done|].
      intros j' y Hj' Hne' ->.
      apply list_lookup_fmap_Some in Hj' as (p & Hci & Hp).
      destruct (Hsame p) as (a' & Ha' & Hab');
        [by eapply list_elem_of_lookup_2 | done |].
      apply Hne'. eapply NoDup_alt; [exact Hids| |].
      * by rewrite list_lookup_fmap, Hp.
      * rewrite list_lookup_fmap, Hj. simpl.
        rewrite (id_key_of _ _ Ha'), (id_key_of _ _ Ha).
        apply py_eq_true in Hab, Hab'. congruence.
  - pose proof (existing_idx_from_None _ _ _ Hidx) as Hfresh. split_and!.
    + apply Forall_app. split; [done | by constructor].
    + rewrite fmap_app. simpl. apply NoDup_snoc_fresh; [done|].
      rewrite (id_key_of _ _ Hv).
      intros (p & Hp & Hin)%list_elem_of_fmap.
      destruct (Hfresh p Hin) as (a & b & Ha & Hb & Hab).
      assert (b = v) as -> by congruence.
      rewrite (id_key_of _ _ Ha) in Hp. injection Hp as Hp.
      apply py_eq_false in Hab. congruence.
    + left. split; [apply Forall_app; split; [done | constructor; eauto]|].
      rewrite fmap_app. simpl. apply NoDup_snoc_fresh; [done|].
      rewrite (ci_name_of _ _ Hqn).
      intros (p & Hp & Hin)%list_elem_of_fmap.
      destruct (Hsame p Hin) as (a & Ha & Hab); [done|].
      destruct (Hfresh p Hin) as (a' & b & Ha' & Hb & Hab').
      assert (b = v) as -> by congruence.
      assert (a' = a) as -> by congruence. congruence.
Qed.

Lemma upsert_invariant V w call h :
  invariant (profiles (data h)) →
  invariant (profiles (data (handle_upsert_profile V w call h).2)).
Proof.
  intros Hinv.
  destruct (handle_upsert_profile V w call h) as [[ret|e] h'] eqn:E; simpl.
  2: { apply upsert_raise_inv in E. by subst. }
  pose proof (upsert_ok_inv _ _ _ _ _ _ E)
    as (Hn & Hf & idx & n & v & Hidx & _ & _ & _ & ->).
  simpl. by eapply invariant_upsert.
Qed.

Lemma set_gemini_key_profiles call h :
  profiles (data (handle_set_gemini_key call h).2) = profiles (data h).
Proof.
  destruct (set_gemini_key_cases call h)
    as [(_ & h' & E & Hd & _) | (_ & E)]; rewrite E; simpl; [|done].
  by rewrite Hd.
Qed.

Lemma serve_invariant V h r :
  invariant (profiles (data h)) →
  invariant (profiles (data (serve V h r))).
Proof.
  intros Hinv. destruct r as [call|call|w call|call|call]; simpl.
  - done.
  - by rewrite set_gemini_key_profiles.
  - by apply upsert_invariant.
  - destruct (delete_cases call h) as [(e & _ & E) | (h' & _ & E & Hd & _)];
      rewrite E; simpl; [done|].
    rewrite Hd. simpl. by apply invariant_filter.
  - by rewrite check_profile_name_state.
Qed.

Lemma run_invariant V rs h :
  invariant (profiles (data h)) →
  invariant (profiles (data (run V rs h))).
Proof.
  revert h. induction rs as [|r rs IH]; intros h Hinv; [done|].
  simpl. apply IH. by apply serve_invariant.
Qed.

Lemma reachable_invariant V h :
  reachable V h → invariant (profiles (data h)).
Proof. intros [rs ->]. apply run_invariant, invariant_nil. Qed.

End Invariant.

(** * The claims *)

Section Claims.

Context {L : StrLower}.
Implicit Types (p q profile : gmap string value) (ps : list (gmap string value)).

(** C1: starting from the empty document, after any sequence of service
    calls (failed upserts included) no two stored profiles have names
    that are equal when compared case-insensitively: any two of them
    have string names whose lower-cased forms differ. *)
Theorem name_uniqueness_invariant V rs :
  names_unique (profiles (data (run V rs (async_setup V None)))).
Proof. apply invariant_names_unique, run_invariant, invariant_nil. Qed.

(** C2, amended: on a store whose profiles all have a string name and an
    id, an upsert of a profile whose name is a non-empty string raises
    exactly when a stored profile with another id has the same name up
    to case; the error is the name-collision error and the state is
    left as it was. *)
Theorem upsert_name_collision_check V w call h profile n :
  scannable (profiles (data h)) →
  data_profile call = Some profile →
  profile !! "name" = Some (VStr n) → n ≠ "" →
  let r := handle_upsert_profile V w call h in
  let clash := collides (profiles (data h)) n (dict_get profile "id") in
  ((∃ e, r.1 = Raise e) ↔ clash) ∧
  (clash → r.1 = Raise (name_collision (VStr n)) ∧ r.2 = h).
Proof.
  intros Hsc Hcall Hname Hne r clash. subst r clash.
  destruct (upsert_scan_cases V w call h profile n Hsc Hcall Hname Hne)
    as [[Hc ->] | [Hc (idx & v & _ & _ & ->)]]; simpl.
  - split; [split; eauto | done].
  - split; [|done]. split; [intros [e [=]] | done].
Qed.

(** C3, amended: a successful [upsert_profile] stores the input profile
    with an id: the freshly drawn UUID, as a string, when the input id
    is absent or falsy ([None], the empty string, [0], [False], the
    empty list), and the input id when it is truthy.  The call returns
    that id. *)
Theorem upsert_assigns_id V w call h ret h' :
  handle_upsert_profile V w call h = (Ok ret, h') →
  let profile := call_get (data_profile call) ∅ in
  let q := stamped V w call profile in
  q ∈ profiles (data h') ∧
  (profile !! "id" = None ∨
   (∃ v, profile !! "id" = Some v ∧ truthy v = false) →
   q !! "id" = Some (VStr (uuid_str (uuid4 w)))) ∧
  (∀ v, profile !! "id" = Some v → truthy v = true → q !! "id" = Some v) ∧
  (∃ v, q !! "id" = Some v ∧ ret = {["id" := v]}).
Proof.
  intros Hok profile q. split_and!.
  - apply upsert_ok_stored in Hok as (k & v & _ & Hk & _).
    eapply list_elem_of_lookup_2, Hk.
  - intros Hfalsy. subst q. rewrite stamped_id.
    assert (truthy (dict_get profile "id") = false) as ->; [|done].
    unfold dict_get. by destruct Hfalsy as [-> | (v & -> & ?)].
  - intros v Hv Ht. subst q.
    by rewrite stamped_id, (dict_get_Some _ _ _ Hv), Ht.
  - apply upsert_ok_inv in Hok as (_ & _ & idx & n & v & _ & _ & Hv & -> & _).
    eauto.
Qed.

(** C4: the profile a successful [upsert_profile] stores carries
    [last_modified] (the current UTC time in ISO format),
    [schema_version] ([PROFILE_SCHEMA_VERSION]) and [modified_by]: [None]
    without a user context or when the user is unknown, the user's name
    otherwise. *)
Theorem upsert_stamps_audit_fields V w call h ret h' :
  handle_upsert_profile V w call h = (Ok ret, h') →
  let q := stamped V w call (call_get (data_profile call) ∅) in
  q ∈ profiles (data h') ∧
  q !! "last_modified" = Some (VStr (utcnow_isoformat w)) ∧
  q !! "schema_version" = Some V ∧
  ∃ m, q !! "modified_by" = Some m ∧
       (context_user_id call = None ∨ context_user_id call = Some "" →
        m = VNone) ∧
       (∀ uid, context_user_id call = Some uid → uid ≠ "" →
               async_get_user w uid = None → m = VNone) ∧
       (∀ uid u, context_user_id call = Some uid → uid ≠ "" →
                 async_get_user w uid = Some u → m = user_name u).
Proof.
  intros Hok q. split_and!.
  - apply upsert_ok_stored in Hok as (k & v & _ & Hk & _).
    eapply list_elem_of_lookup_2, Hk.
  - apply stamped_last_modified.
  - apply stamped_schema_version.
  - exists (modified_by w call). split; [apply stamped_modified_by|].
    unfold modified_by. split_and!.
    + intros [-> | ->]; done.
    + intros uid -> Hne ->. by rewrite bool_decide_eq_false_2.
    + intros uid u -> Hne ->. by rewrite bool_decide_eq_false_2.
Qed.

(** C5, amended: [upsert_profile] raises the missing-name error exactly
    when the input profile's name is absent or falsy: [None], the empty
    string, [0], [False] or the empty list.  A call without a profile
    counts as an absent name. *)
Theorem upsert_requires_name V w call h :
  let name := call_get (data_profile call) ∅ !! "name" in
  (handle_upsert_profile V w call h).1 = Raise missing_name ↔
  (name = None ∨ ∃ v, name = Some v ∧ truthy v = false).
Proof.
  intros name. subst name. rewrite upsert_missing_name_iff.
  unfold dict_get. destruct (_ !! "name") as [v|]; simpl.
  - split; [eauto|]. by intros [[=] | (v' & [= <-] & ?)].
  - split; [eauto | done].
Qed.

(** C6, amended: on a store in which every profile has an ["id"] key,
    [delete_profile] never fails and leaves exactly the profiles whose
    id differs (Python's [!=]) from [profile_id], in their order; when
    no profile has that id the document is unchanged and nothing is
    saved. *)
Theorem delete_profile_by_id call h :
  has_ids (profiles (data h)) →
  let pid := call_get (data_profile_id call) VNone in
  let r := handle_delete_profile call h in
  r.1 = Ok () ∧
  profiles (data r.2) = filter (λ p, id_differs pid p) (profiles (data h)) ∧
  ((∀ p, p ∈ profiles (data h) → id_differs pid p = true) →
   data r.2 = data h ∧ store r.2 = store h).
Proof.
  intros Hids pid r. subst r.
  destruct (delete_has_ids call h Hids) as (h' & -> & Hd & Hs).
  fold pid in Hd, Hs. simpl. rewrite Hd. simpl. split_and!; [done..|].
  intros Hnone. rewrite Hs, Hd. simpl.
  rewrite filter_all by (intros p Hp; by rewrite (Hnone p Hp)).
  rewrite Nat.ltb_irrefl. by destruct (data h).
Qed.

(** C7: in a reachable state, after an [upsert_profile] that succeeds and
    returns id [i] for an input profile named [n], the profile list
    returned by [get_config] holds a profile whose id equals [i]
    (Python's [==]) at exactly one position, and its name is [n]. *)
Theorem upsert_then_get_config V w call callG h ret h' n i :
  reachable V h →
  handle_upsert_profile V w call h = (Ok ret, h') →
  call_get (data_profile call) ∅ !! "name" = Some n →
  ret !! "id" = Some i →
  ∃ cfg, (handle_get_config callG h').1 = Ok cfg ∧
    ∃ k q, resp_profiles cfg !! k = Some q ∧
           q !! "id" = Some i ∧ q !! "name" = Some n ∧
           ∀ k' q' i', resp_profiles cfg !! k' = Some q' →
                       q' !! "id" = Some i' → py_eq i' i = true → k' = k.
Proof.
  intros Hreach Hok Hn Hi. eexists. split; [reflexivity|]. simpl.
  assert (invariant (profiles (data h'))) as Hinv.
  { pose proof (upsert_invariant V w call h (reachable_invariant _ _ Hreach))
      as Hinv. by rewrite Hok in Hinv. }
  pose proof (upsert_ok_stored _ _ _ _ _ _ Hok) as (k & v & Hv & Hk & _).
  pose proof (upsert_ok_inv _ _ _ _ _ _ Hok)
    as (_ & _ & idx & n' & v' & _ & Hqn & Hqv & -> & _).
  rewrite lookup_singleton_eq in Hi. injection Hi as ->.
  exists k, (stamped V w call (call_get (data_profile call) ∅)).
  split_and!; [done | done | by rewrite stamped_name |].
  intros k' q' i' Hk' Hq' Heq.
  by eapply (invariant_ids _ Hinv k' k).
Qed.

(** C8, amended: for every state, every non-empty name and every
    [exclude_id], [check_profile_name] answers [available = false]
    exactly when [upsert_profile], given a profile with that name and
    that id, raises the name-collision error. *)
Theorem check_profile_name_agrees V w h callC callU profile n :
  data_name callC = Some (VStr n) → n ≠ "" →
  data_profile callU = Some profile →
  profile !! "name" = Some (VStr n) →
  dict_get profile "id" = call_get (data_exclude_id callC) VNone →
  (handle_check_profile_name callC h).1 = Ok {| available := false |} ↔
  (handle_upsert_profile V w callU h).1 = Raise (name_collision (VStr n)).
Proof.
  intros HnC Hne HpU Hname Hid.
  assert (truthy (dict_get profile "name") = true) as Hn.
  { rewrite (dict_get_Some _ _ _ Hname). by apply truthy_VStr. }
  unfold handle_check_profile_name, handle_upsert_profile. run_handler.
  rewrite HnC, HpU, <- Hid. simpl. rewrite Hn. simpl.
  rewrite (name_taken_existing _ profile) by done.
  destruct (existing_with_name _ _ _) as [found|e] eqn:Hf; simpl.
  - rewrite (existing_with_name_found _ _ _ _ Hf).
    destruct found as [p|].
    + rewrite bool_decide_eq_true_2 by eauto. simpl.
      unfold getitem. rewrite Hname. done.
    + rewrite bool_decide_eq_false_2 by (by intros [? [=]]). simpl.
      split; [discriminate|]. intros H. exfalso.
      destruct (existing_idx _ _) as [idx|e] eqn:Hidx.
      * unfold getitem in H. rewrite stamped_name, Hname in H.
        pose proof (stamped_id_truthy V w callU profile) as (v & Hv & _).
        rewrite Hv in H. destruct idx; discriminate.
      * simpl in H. injection H as ->.
        by apply existing_idx_from_raise in Hidx.
  - split; [discriminate|]. intros [= ->].
    by apply existing_with_name_raise in Hf.
Qed.

(** C9: when [upsert_profile] raises, for whatever reason, the state is
    the one before the call: the document in memory, the payloads saved
    so far, and the log. *)
Theorem upsert_atomic_on_error V w call h e :
  (handle_upsert_profile V w call h).1 = Raise e →
  (handle_upsert_profile V w call h).2 = h.
Proof.
  destruct (handle_upsert_profile V w call h) as [r h'] eqn:E. simpl.
  intros ->. by eapply upsert_raise_inv.
Qed.

End Claims.

(** C10, amended: [set_gemini_key] stores the empty string as [None] and
    [None] or any other string as it is, and saves the document; given a
    value that is neither [None] nor a string it raises
    [AttributeError] and stores nothing.  The profiles are untouched in
    every case. *)
Theorem set_gemini_key_stores_or_clears call h :
  let api_key := call_get (data_api_key call) VNone in
  let r := handle_set_gemini_key call h in
  (api_key = VStr "" →
   r.1 = Ok () ∧ gemini_api_key (data r.2) = VNone ∧
   store r.2 = data r.2 :: store h) ∧
  (api_key = VNone ∨ (∃ s, api_key = VStr s ∧ s ≠ "") →
   r.1 = Ok () ∧ gemini_api_key (data r.2) = api_key ∧
   store r.2 = data r.2 :: store h) ∧
  (api_key ≠ VNone → (∀ s, api_key ≠ VStr s) →
   r = (Raise (AttributeError "startswith"), h)) ∧
  profiles (data r.2) = profiles (data h).
Proof.
  intros api_key r. subst r api_key.
  destruct (set_gemini_key_cases call h)
    as [(Hk & h' & -> & Hd & Hs) | ((Hk1 & Hk2) & ->)]; simpl.
  - split_and!.
    + intros Heq. rewrite Hs, Hd. simpl.
      by rewrite bool_decide_eq_true_2.
    + intros Hcase. rewrite Hs, Hd. simpl.
      rewrite bool_decide_eq_false_2; [done|].
      destruct Hcase as [-> | (s & -> & Hne)]; congruence.
    + intros Hne Hns. exfalso. destruct Hk as [? | [s ?]]; [done|].
      by eapply Hns.
    + by rewrite Hd.
  - split_and!.
    + intros Heq. exfalso. by eapply Hk2.
    + intros [? | (s & ? & _)]; exfalso; [done | by eapply Hk2].
    + done.
    + done.
Qed.

(** ** The claims at concrete calls *)

Lemma name_uniqueness_invariant_witness :
  ∃ n m, home !! "name" = Some (VStr n) ∧ office !! "name" = Some (VStr m) ∧
         lower n ≠ lower m.
Proof.
  apply (name_uniqueness_invariant sample_version
           [UpsertProfile sample_host home_call;
            UpsertProfile sample_host office_call] 0 1 home office).
  - reflexivity.
  - reflexivity.
  - discriminate.
Defined.

Lemma upsert_name_collision_check_witness :
  (handle_upsert_profile sample_version sample_host
     (upsert_call {["name" := VStr "hOmE"]} None) one_profile).1
  = Raise (name_collision (VStr "hOmE")).
Proof.
  apply (upsert_name_collision_check sample_version sample_host
           (upsert_call {["name" := VStr "hOmE"]} None) one_profile
           {["name" := VStr "hOmE"]} "hOmE").
  - repeat constructor; eexists; reflexivity.
  - reflexivity.
  - reflexivity.
  - discriminate.
  - exists home, "Home", sample_uuid.
    split_and!; [repeat constructor | reflexivity..].
Defined.

(** The claim as stated fails in a reachable state: after a profile
    named [5] was stored, an upsert of "A" raises although no stored
    profile is named "A".  It also fails for a name that is not a
    string: on the store holding "Home", an upsert of a profile named
    [5] raises although no stored profile has that name. *)
Lemma upsert_name_collision_check_counterexample :
  let h := (handle_upsert_profile sample_version sample_host
              (upsert_call {["name" := VInt 5]} None) fresh).2 in
  (reachable sample_version h ∧
   (handle_upsert_profile sample_version sample_host
      (upsert_call {["name" := VStr "A"]} None) h).1
   = Raise (AttributeError "lower") ∧
   ¬ collides (profiles (data h)) "A" VNone) ∧
  ((handle_upsert_profile sample_version sample_host
      (upsert_call {["name" := VInt 5]} None) one_profile).1
   = Raise (AttributeError "lower") ∧
   ∀ p, p ∈ profiles (data one_profile) → p !! "name" ≠ Some (VInt 5)).
Proof.
  intros h. split; split_and!.
  - exists [UpsertProfile sample_host (upsert_call {["name" := VInt 5]} None)].
    reflexivity.
  - vm_compute. reflexivity.
  - intros (p & m & i & Hin & Hm & _).
    apply list_elem_of_singleton in Hin. subst p.
    vm_compute in Hm. discriminate.
  - vm_compute. reflexivity.
  - intros p Hin. apply list_elem_of_singleton in Hin. subst p.
    vm_compute. discriminate.
Qed.

Lemma upsert_assigns_id_witness :
  home ∈ profiles (data one_profile) ∧ home !! "id" = Some sample_uuid ∧
  office ∈ profiles (data two_profiles) ∧ office !! "id" = Some (VStr "x").
Proof.
  destruct (upsert_assigns_id sample_version sample_host home_call fresh
              {["id" := sample_uuid]} one_profile) as (Hin & Hgen & _).
  { vm_compute. reflexivity. }
  destruct (upsert_assigns_id sample_version sample_host office_call
              one_profile {["id" := VStr "x"]} two_profiles)
    as (Hin' & _ & Hkeep & _).
  { vm_compute. reflexivity. }
  split_and!.
  - exact Hin.
  - apply Hgen. left. reflexivity.
  - exact Hin'.
  - apply Hkeep; reflexivity.
Defined.

(** The claim as stated fails for the id [0]: it is present, not [None]
    and not empty, yet it is replaced by a UUID. *)
Lemma upsert_assigns_id_counterexample :
  let profile : gmap string value := {["name" := VStr "A"; "id" := VInt 0]} in
  profile !! "id" = Some (VInt 0) ∧
  (handle_upsert_profile sample_version sample_host
     (upsert_call profile None) fresh).1 = Ok {["id" := sample_uuid]} ∧
  stamped sample_version sample_host (upsert_call profile None) profile !! "id"
  ≠ Some (VInt 0).
Proof.
  intros profile. split_and!.
  - reflexivity.
  - vm_compute. reflexivity.
  - vm_compute. discriminate.
Qed.

Lemma upsert_stamps_audit_fields_witness :
  home ∈ profiles (data one_profile) ∧
  home !! "last_modified" = Some (VStr "2024-05-01T12:00:00+00:00") ∧
  home !! "schema_version" = Some (VInt 1) ∧
  home !! "modified_by" = Some (VStr "Ann").
Proof.
  destruct (upsert_stamps_audit_fields sample_version sample_host home_call
              fresh {["id" := sample_uuid]} one_profile)
    as (Hin & Hlm & Hsv & m & Hm & _ & _ & Hu).
  - vm_compute. reflexivity.
  - split_and!; [exact Hin | exact Hlm | exact Hsv |].
    etransitivity; [exact Hm|]. f_equal.
    apply (Hu "u1" {| user_name := VStr "Ann" |});
      [reflexivity | discriminate | reflexivity].
Defined.

(** The claim as stated fails for the name [0]: it is present, not
    [None] and not empty, yet the missing-name error is raised. *)
Lemma upsert_requires_name_counterexample :
  let profile : gmap string value := {["name" := VInt 0]} in
  profile !! "name" ≠ None ∧ profile !! "name" ≠ Some VNone ∧
  profile !! "name" ≠ Some (VStr "") ∧
  (handle_upsert_profile sample_version sample_host
     (upsert_call profile None) fresh).1 = Raise missing_name.
Proof.
  intros profile. split_and!; try (vm_compute; discriminate).
  vm_compute. reflexivity.
Qed.

Lemma delete_profile_by_id_witness :
  profiles (data (handle_delete_profile (delete_call (VStr "x"))
                    two_profiles).2) = [home] ∧
  data (handle_delete_profile (delete_call (VStr "nobody")) two_profiles).2
  = data two_profiles.
Proof.
  assert (has_ids (profiles (data two_profiles))) as Hids.
  { repeat constructor; eexists; reflexivity. }
  split.
  - etransitivity.
    + apply (delete_profile_by_id (delete_call (VStr "x")) two_profiles Hids).
    + vm_compute. reflexivity.
  - apply (delete_profile_by_id (delete_call (VStr "nobody")) two_profiles
             Hids).
    intros p Hp. apply elem_of_cons in Hp as [-> | Hp]; [reflexivity|].
    apply list_elem_of_singleton in Hp as ->. reflexivity.
Defined.

(** The claim as stated fails on a store holding a profile without an
    id: the call fails. *)
Lemma delete_profile_by_id_counterexample :
  (handle_delete_profile (delete_call (VStr "x"))
     (loaded_store [{["name" := VStr "Home"]}])).1 = Raise (KeyError "id").
Proof. vm_compute. reflexivity. Qed.

Lemma upsert_then_get_config_witness :
  ∃ cfg, (handle_get_config bare_call two_profiles).1 = Ok cfg ∧
    ∃ k q, resp_profiles cfg !! k = Some q ∧
           q !! "id" = Some (VStr "x") ∧
           q !! "name" = Some (VStr "Office") ∧
           ∀ k' q' i', resp_profiles cfg !! k' = Some q' →
                       q' !! "id" = Some i' →
                       py_eq i' (VStr "x") = true → k' = k.
Proof.
  apply (upsert_then_get_config sample_version sample_host office_call
           bare_call one_profile {["id" := VStr "x"]}).
  - exists [UpsertProfile sample_host home_call]. reflexivity.
  - vm_compute. reflexivity.
  - reflexivity.
  - reflexivity.
Defined.

Lemma check_profile_name_agrees_witness :
  (handle_check_profile_name (check_call (VStr "HOME") None)
     one_profile).1 = Ok {| available := false |} ↔
  (handle_upsert_profile sample_version sample_host
     (upsert_call {["name" := VStr "HOME"]} None) one_profile).1
  = Raise (name_collision (VStr "HOME")).
Proof.
  apply (check_profile_name_agrees sample_version sample_host one_profile
           (check_call (VStr "HOME") None)
           (upsert_call {["name" := VStr "HOME"]} None)
           {["name" := VStr "HOME"]} "HOME").
  - reflexivity.
  - discriminate.
  - reflexivity.
  - reflexivity.
  - reflexivity.
Defined.

(** The claim as stated fails for the empty name on a store holding a
    profile with an empty name: the name is reported as taken, but the
    upsert raises the missing-name error, not the collision error. *)
Lemma check_profile_name_agrees_counterexample :
  let h := loaded_store [{["name" := VStr ""; "id" := VStr "a"]}] in
  (handle_check_profile_name (check_call (VStr "") None) h).1
  = Ok {| available := false |} ∧
  (handle_upsert_profile sample_version sample_host
     (upsert_call {["name" := VStr ""]} None) h).1 = Raise missing_name ∧
  missing_name ≠ name_collision (VStr "").
Proof.
  intros h. split_and!.
  - vm_compute. reflexivity.
  - vm_compute. reflexivity.
  - discriminate.
Qed.

Lemma upsert_atomic_on_error_witness :
  (handle_upsert_profile sample_version sample_host
     (upsert_call {["name" := VStr "HOME"; "id" := VStr "x"]} None)
     one_profile).2 = one_profile.
Proof.
  apply (upsert_atomic_on_error sample_version sample_host _ one_profile
           (name_collision (VStr "HOME"))).
  vm_compute. reflexivity.
Defined.

Lemma set_gemini_key_stores_or_clears_witness :
  gemini_api_key (data (handle_set_gemini_key (key_call (VStr "")) one_profile).2)
  = VNone ∧
  gemini_api_key
    (data (handle_set_gemini_key (key_call (VStr "AIzaXYZ")) one_profile).2)
  = VStr "AIzaXYZ" ∧
  handle_set_gemini_key (key_call (VList [])) one_profile
  = (Raise (AttributeError "startswith"), one_profile).
Proof.
  split_and!.
  - apply (set_gemini_key_stores_or_clears (key_call (VStr "")) one_profile).
    reflexivity.
  - apply (set_gemini_key_stores_or_clears (key_call (VStr "AIzaXYZ"))
             one_profile).
    right. exists "AIzaXYZ". split; [reflexivity | discriminate].
  - apply (set_gemini_key_stores_or_clears (key_call (VList [])) one_profile).
    + discriminate.
    + discriminate.
Defined.

(** The claim as stated fails for the key [123]: the call raises and the
    key is not stored. *)
Lemma set_gemini_key_stores_or_clears_counterexample :
  let r := handle_set_gemini_key (key_call (VInt 123)) fresh in
  r.1 = Raise (AttributeError "startswith") ∧
  gemini_api_key (data r.2) ≠ VInt 123.
Proof.
  intros r. split; [vm_compute; reflexivity | vm_compute; discriminate].
Qed.

(** * Further properties of the handlers *)

Section Further.

Context {L : StrLower}.
Implicit Types (p q profile : gmap string value) (ps : list (gmap string value)).

(** ** Persistence *)

(** A service call either leaves the document and the saved payloads as
    they were, or saves the document it leaves in memory. *)
Lemma serve_saves V h r :
  (data (serve V h r) = data h ∧ store (serve V h r) = store h) ∨
  store (serve V h r) = data (serve V h r) :: store h.
Proof.
  destruct r as [call|call|w call|call|call]; simpl.
  - by left.
  - destruct (set_gemini_key_cases call h)
      as [(_ & h' & -> & _ & Hs) | (_ & ->)]; [by right | by left].
  - destruct (handle_upsert_profile V w call h) as [[ret|e] h'] eqn:E; simpl.
    + apply upsert_ok_inv in E
        as (_ & _ & idx & n & v & _ & _ & _ & _ & ->). by right.
    + apply upsert_raise_inv in E as ->. by left.
  - destruct (delete_cases call h) as [(e & _ & ->) | (h' & _ & -> & Hd & Hs)];
      [by left|]. simpl.
    destruct (length _ <? length (profiles (data h)))%nat eqn:Hlt;
      [by right|].
    left. split; [|done]. apply Nat.ltb_ge in Hlt.
    rewrite Hd, filter_full_length by done. by destruct (data h).
  - rewrite check_profile_name_state. by left.
Qed.

Lemma run_mirrors V d0 rs h :
  data h = default d0 (head (store h)) →
  data (run V rs h) = default d0 (head (store (run V rs h))).
Proof.
  revert h. induction rs as [|r rs IH]; intros h Hh; [done|].
  simpl. apply IH.
  destruct (serve_saves V h r) as [[-> ->] | ->]; done.
Qed.

(** X1: whatever was loaded at setup and whatever calls were served, the
    document in memory is the last payload handed to the store, or the
    document set up at start when nothing was saved since: a restart
    from storage loses nothing. *)
Theorem saved_document_mirrors_memory V loaded rs :
  let h := run V rs (async_setup V loaded) in
  data h = default (data (async_setup V loaded)) (head (store h)).
Proof. intros h. by apply run_mirrors. Qed.

(** ** Uniqueness of ids *)

(** X2: starting from the empty document, after any sequence of service
    calls any two stored profiles carry ids that differ under Python's
    [==]. *)
Theorem ids_unique_invariant V rs :
  let ps := profiles (data (run V rs (async_setup V None))) in
  ∀ i j p q, ps !! i = Some p → ps !! j = Some q → i ≠ j →
             ∃ a b, p !! "id" = Some a ∧ q !! "id" = Some b ∧
                    py_eq a b = false.
Proof.
  intros ps i j p q Hi Hj Hne.
  assert (invariant ps) as Hinv by apply run_invariant, invariant_nil.
  pose proof (invariant_has_ids _ Hinv) as Hids.
  destruct (Forall_lookup_1 _ _ _ _ Hids Hi) as [a Ha].
  destruct (Forall_lookup_1 _ _ _ _ Hids Hj) as [b Hb].
  exists a, b. split_and!; [done..|].
  destruct (py_eq a b) eqn:Hab; [|done].
  exfalso. apply Hne. by eapply (invariant_ids _ Hinv i j).
Qed.

(** X3: the same holds after a restart.  When the loaded document has
    profiles with truthy names and ids, ids that differ under [==], and
    string names that differ up to case (or at most one profile), every
    sequence of service calls keeps names distinct up to case and ids
    distinct. *)
Theorem invariant_kept_after_load V d rs :
  invariant (profiles d) →
  let ps := profiles (data (run V rs (async_setup V (Some d)))) in
  names_unique ps ∧
  ∀ i j p q a b, ps !! i = Some p → ps !! j = Some q →
                 p !! "id" = Some a → q !! "id" = Some b →
                 py_eq a b = true → i = j.
Proof.
  intros Hinv ps.
  assert (invariant ps) as Hps by by apply run_invariant.
  split; [by apply invariant_names_unique | by apply invariant_ids].
Qed.

(** ** What an upsert leaves alone *)

(** X4: a successful upsert touches one list position only: the API key
    and the document's schema version are kept, every stored profile
    with another id stays where it was, and the list keeps its length
    (an update) or grows by one (a create, when no stored profile had
    the id). *)
Theorem upsert_leaves_others V w call h ret h' v :
  handle_upsert_profile V w call h = (Ok ret, h') →
  ret !! "id" = Some v →
  gemini_api_key (data h') = gemini_api_key (data h) ∧
  schema_version (data h') = schema_version (data h) ∧
  (∀ j p a, profiles (data h) !! j = Some p → p !! "id" = Some a →
            py_eq a v = false → profiles (data h') !! j = Some p) ∧
  ((length (profiles (data h')) = length (profiles (data h)) ∧
    ∃ p a, p ∈ profiles (data h) ∧ p !! "id" = Some a ∧ py_eq a v = true) ∨
   (length (profiles (data h')) = S (length (profiles (data h))) ∧
    ∀ p, p ∈ profiles (data h) →
         ∃ a, p !! "id" = Some a ∧ py_eq a v = false)).
Proof.
  intros Hok Hv.
  pose proof (upsert_ok_stored _ _ _ _ _ _ Hok) as (k & v0 & Hv0 & Hk & Hcases).
  pose proof (upsert_ok_inv _ _ _ _ _ _ Hok)
    as (_ & _ & idx & n & v' & _ & _ & Hqv & -> & ->).
  rewrite lookup_singleton_eq in Hv. injection Hv as ->.
  assert (v0 = v) as -> by congruence.
  split_and!; [by destruct idx | by destruct idx | |].
  - intros j p a Hj Ha Hne.
    destruct Hcases as [(_ & -> & p0 & a0 & Hp0 & Ha0 & Heq) | (_ & -> & _)].
    + rewrite list_lookup_insert_ne; [done|]. intros ->. congruence.
    + by apply lookup_app_l_Some.
  - destruct Hcases as [(_ & -> & p0 & a0 & Hp0 & Ha0 & Heq)
                       | (_ & -> & Hfresh)].
    + left. rewrite length_insert. split; [done|].
      exists p0, a0. split_and!; [by eapply list_elem_of_lookup_2 | done..].
    + right. rewrite length_app. simpl. split; [lia | done].
Qed.

(** X5: the profile stored under the returned id is the caller's
    profile: every field other than [id], [last_modified],
    [schema_version] and [modified_by] is stored as it was sent. *)
Theorem upsert_keeps_client_fields V w call h ret h' v :
  handle_upsert_profile V w call h = (Ok ret, h') →
  ret !! "id" = Some v →
  ∃ q, q ∈ profiles (data h') ∧ q !! "id" = Some v ∧
       ∀ key, key ≠ "id" → key ≠ "last_modified" →
              key ≠ "schema_version" → key ≠ "modified_by" →
              q !! key = call_get (data_profile call) ∅ !! key.
Proof.
  intros Hok Hv.
  pose proof (upsert_ok_stored _ _ _ _ _ _ Hok) as (k & v0 & _ & Hk & _).
  pose proof (upsert_ok_inv _ _ _ _ _ _ Hok)
    as (_ & _ & idx & n & v' & _ & _ & Hqv & -> & _).
  rewrite lookup_singleton_eq in Hv. injection Hv as ->.
  eexists. split_and!; [by eapply list_elem_of_lookup_2 | done |].
  intros key ????. by apply stamped_other.
Qed.

(** X6: in a reachable state a stored profile can always be saved again
    under its own id with a name that differs from its stored name in
    case only (or not at all): the call succeeds, returns that id and
    replaces the profile at its position. *)
Theorem upsert_own_name_succeeds V w call h profile p k i m n :
  reachable V h →
  profiles (data h) !! k = Some p →
  p !! "id" = Some i → p !! "name" = Some (VStr m) →
  data_profile call = Some profile →
  profile !! "id" = Some i → profile !! "name" = Some (VStr n) →
  lower n = lower m →
  ∃ h', handle_upsert_profile V w call h = (Ok {["id" := i]}, h') ∧
        profiles (data h')
        = <[k := stamped V w call profile]> (profiles (data h)).
Proof.
  intros Hreach Hk Hpi Hpm Hcall Hid Hname Hl.
  pose proof (reachable_invariant _ _ Hreach) as Hinv.
  assert (p ∈ profiles (data h)) as Hin by by eapply list_elem_of_lookup_2.
  destruct (profiles (data h)) as [|p0 rest] eqn:Eps; [by apply elem_of_nil in Hin|].
  assert (∃ m0, p0 !! "name" = Some (VStr m0)) as Hm0.
  { destruct Hinv as (_ & _ & [[Hstr _] | Hlen]).
    - by apply Forall_cons in Hstr as [? _].
    - destruct rest; [|simpl in Hlen; lia].
      apply list_elem_of_singleton in Hin as ->. eauto. }
  destruct (invariant_named_head _ _ Hinv Hm0) as [Hstr Hnd].
  pose proof (invariant_scannable _ Hinv Hstr) as Hsc.
  rewrite <- Eps in *. clear Eps Hm0 p0 rest.
  pose proof Hinv as (Hok & Hids & _).
  pose proof (Forall_lookup_1 _ _ _ _ Hok Hk)
    as [(vn & Hvn & Hnt) (vi & Hvi & Hit)].
  assert (vi = i) as -> by congruence.
  assert (vn = VStr m) as -> by congruence.
  apply truthy_VStr in Hnt.
  assert (n ≠ "") as Hne.
  { intros ->. symmetry in Hl. by apply lower_nonempty in Hl. }
  pose proof (dict_get_Some _ _ _ Hid) as Hget.
  assert (stamped V w call profile !! "id" = Some i) as Hq.
  { by rewrite stamped_id, Hget, Hit. }
  destruct (upsert_scan_cases V w call h profile n Hsc Hcall Hname Hne)
    as [[Hc _] | [_ (idx & v & Hidx & Hv & ->)]].
  - exfalso. destruct Hc as (p' & m'' & j & Hin' & Hm'' & Hl' & Hj & Hjne).
    apply list_elem_of_lookup in Hin' as [k' Hk'].
    assert (k' = k) as ->.
    { eapply NoDup_alt; [exact Hnd| |].
      - rewrite list_lookup_fmap, Hk'. simpl.
        by rewrite (ci_name_of _ _ Hm''), Hl', Hl.
      - rewrite list_lookup_fmap, Hk. simpl. by rewrite (ci_name_of _ _ Hpm). }
    assert (j = i) as -> by congruence.
    rewrite Hget, py_eq_refl in Hjne. discriminate.
  - assert (v = i) as -> by congruence.
    eexists. split; [done|]. simpl.
    destruct idx as [k'|].
    + apply existing_idx_from_Some in Hidx
        as (j & p' & a & b & -> & Hj & Ha & Hb & Hab).
      simpl. f_equal. assert (b = i) as -> by congruence.
      by eapply (invariant_ids _ Hinv j k).
    + exfalso.
      destruct (existing_idx_from_None _ _ _ Hidx p Hin)
        as (a & b & Ha & Hb & Hab).
      assert (a = i) as -> by congruence.
      assert (b = i) as -> by congruence.
      rewrite py_eq_refl in Hab. discriminate.
Qed.

End Further.

(** ** Deleting, continued *)

Lemma filter_one_out {A B : Type} `{EqDecision B} (f : A → B) (a : B)
    (l : list A) :
  NoDup (f <$> l) → a ∈ f <$> l →
  length (filter (λ y, f y ≠ a) l) + 1 = length l.
Proof.
  induction l as [|x l IH]; simpl; intros Hnd Hin.
  - by apply elem_of_nil in Hin.
  - apply NoDup_cons in Hnd as [Hx Hnd]. rewrite filter_cons.
    destruct (decide (f x ≠ a)) as [Hne|Heq].
    + simpl. f_equal. apply IH; [done|].
      apply elem_of_cons in Hin as [->|Hin]; done.
    + apply dec_stable in Heq. subst a.
      rewrite filter_all; [lia|].
      intros y Hy Heq. apply Hx. rewrite <- Heq.
      by apply list_elem_of_fmap_2.
Qed.

Lemma filter_id_differs ps pid :
  has_ids ps →
  filter (λ p, id_differs pid p) ps
  = filter (λ p, id_key p ≠ Some (norm pid)) ps.
Proof.
  intros Hids. induction Hids as [|p ps [a Ha] _ IH]; [done|].
  rewrite !filter_cons, IH.
  assert (id_differs pid p = negb (py_eq a pid)) as Hd
      by (unfold id_differs; by rewrite Ha).
  rewrite (id_key_of _ _ Ha).
  destruct (py_eq a pid) eqn:Hp; simpl in Hd.
  - apply py_eq_true in Hp.
    rewrite decide_False by (rewrite Hd; exact id).
    rewrite decide_False by (intros Hne; apply Hne; congruence). done.
  - apply py_eq_false in Hp.
    rewrite decide_True by (rewrite Hd; exact I).
    rewrite decide_True by congruence. done.
Qed.

Section Deleting.

Context {L : StrLower}.
Implicit Types (p q profile : gmap string value) (ps : list (gmap string value)).

(** X7: in a reachable state, deleting the id of a stored profile
    removes exactly one profile, leaves no profile with that id, keeps
    the API key and saves the new document. *)
Theorem delete_removes_one_and_saves V call h p :
  reachable V h →
  p ∈ profiles (data h) →
  p !! "id" = Some (call_get (data_profile_id call) VNone) →
  let r := handle_delete_profile call h in
  length (profiles (data r.2)) + 1 = length (profiles (data h)) ∧
  (∀ q, q ∈ profiles (data r.2) →
        id_differs (call_get (data_profile_id call) VNone) q = true) ∧
  gemini_api_key (data r.2) = gemini_api_key (data h) ∧
  store r.2 = data r.2 :: store h.
Proof.
  intros Hreach Hin Hid r. subst r.
  pose proof (reachable_invariant _ _ Hreach) as Hinv.
  pose proof (invariant_has_ids _ Hinv) as Hids.
  destruct Hinv as (_ & Hnd & _).
  destruct (delete_has_ids call h Hids) as (h' & -> & Hd & Hs). simpl.
  assert (length (profiles (data h')) + 1 = length (profiles (data h)))
    as Hlen.
  { rewrite Hd. simpl. rewrite filter_id_differs by done.
    apply (filter_one_out id_key); [done|].
    rewrite <- (id_key_of _ _ Hid). by apply list_elem_of_fmap_2. }
  split_and!.
  - done.
  - rewrite Hd. simpl. intros q [Hq _]%list_elem_of_filter.
    by apply Is_true_true.
  - by rewrite Hd.
  - rewrite Hs. rewrite Hd in Hlen. simpl in Hlen.
    destruct (Nat.ltb_spec
                (length (filter (λ p, id_differs
                                        (call_get (data_profile_id call) VNone) p)
                           (profiles (data h))))
                (length (profiles (data h)))); [done | lia].
Qed.

(** X11: in a reachable state the name of a stored profile, in any
    case, is reported as taken, except when the profile's own id is
    excluded: then it is available. *)
Theorem check_profile_name_excludes_self V h call p i n n' :
  reachable V h →
  p ∈ profiles (data h) →
  p !! "id" = Some i → p !! "name" = Some (VStr n) →
  data_name call = Some (VStr n') → lower n' = lower n →
  handle_check_profile_name call h
  = (Ok {| available := py_eq i (call_get (data_exclude_id call) VNone) |},
     h).
Proof.
  intros Hreach Hin Hi Hn Hcall Hl.
  pose proof (reachable_invariant _ _ Hreach) as Hinv.
  destruct (profiles (data h)) as [|p0 rest] eqn:Eps;
    [by apply elem_of_nil in Hin|].
  assert (∃ m0, p0 !! "name" = Some (VStr m0)) as Hm0.
  { destruct Hinv as (_ & _ & [[Hstr _] | Hlen]).
    - by apply Forall_cons in Hstr as [? _].
    - destruct rest; [|simpl in Hlen; lia].
      apply list_elem_of_singleton in Hin as ->. eauto. }
  destruct (invariant_named_head _ _ Hinv Hm0) as [Hstr Hnd].
  pose proof (invariant_scannable _ Hinv Hstr) as Hsc.
  rewrite <- Eps in *. clear Eps Hm0 p0 rest.
  unfold handle_check_profile_name. run_handler. rewrite Hcall. simpl.
  set (ex := call_get (data_exclude_id call) VNone).
  rewrite (name_taken_existing _ {["name" := VStr n']})
    by apply lookup_singleton_eq.
  rewrite (existing_with_name_scan _ _ _ n') by (done || apply lookup_singleton_eq).
  simpl. do 3 f_equal.
  destruct (List.find (clashes n' ex) (profiles (data h))) as [p'|] eqn:E.
  - rewrite bool_decide_eq_true_2 by eauto. simpl. symmetry.
    apply find_some in E as [Hin' Hc]. apply list_elem_of_In in Hin'.
    apply clashes_true in Hc as (m & j & Hm & Hl' & Hj & Hne).
    apply list_elem_of_lookup in Hin as [k Hk].
    apply list_elem_of_lookup in Hin' as [k' Hk'].
    assert (k' = k) as ->.
    { eapply NoDup_alt; [exact Hnd| |].
      - rewrite list_lookup_fmap, Hk'. simpl.
        by rewrite (ci_name_of _ _ Hm), Hl', Hl.
      - rewrite list_lookup_fmap, Hk. simpl. by rewrite (ci_name_of _ _ Hn). }
    congruence.
  - rewrite bool_decide_eq_false_2 by (by intros [? [=]]). simpl. symmetry.
    destruct (py_eq i ex) eqn:Hex; [done|]. exfalso.
    eapply find_none in E; [|by apply list_elem_of_In].
    assert (clashes n' ex p = true); [|congruence].
    apply clashes_true. by exists n, i.
Qed.

(** X12: in a reachable state, deleting a profile frees its name:
    afterwards [check_profile_name] reports that name, in any case and
    with any [exclude_id], as available. *)
Theorem delete_frees_name V h callD callC p n n' :
  reachable V h →
  p ∈ profiles (data h) →
  p !! "id" = Some (call_get (data_profile_id callD) VNone) →
  p !! "name" = Some (VStr n) →
  data_name callC = Some (VStr n') → lower n' = lower n →
  let h1 := (handle_delete_profile callD h).2 in
  handle_check_profile_name callC h1 = (Ok {| available := true |}, h1).
Proof.
  intros Hreach Hin Hid Hn Hcall Hl h1. subst h1.
  pose proof (reachable_invariant _ _ Hreach) as Hinv.
  destruct (profiles (data h)) as [|p0 rest] eqn:Eps;
    [by apply elem_of_nil in Hin|].
  assert (∃ m0, p0 !! "name" = Some (VStr m0)) as Hm0.
  { destruct Hinv as (_ & _ & [[Hstr _] | Hlen]).
    - by apply Forall_cons in Hstr as [? _].
    - destruct rest; [|simpl in Hlen; lia].
      apply list_elem_of_singleton in Hin as ->. eauto. }
  destruct (invariant_named_head _ _ Hinv Hm0) as [Hstr Hnd].
  pose proof (invariant_scannable _ Hinv Hstr) as Hsc.
  rewrite <- Eps in *. clear Eps Hm0 p0 rest.
  destruct (delete_has_ids callD h (scannable_has_ids _ Hsc))
    as (h1 & -> & Hd & _). simpl.
  set (pid := call_get (data_profile_id callD) VNone) in *.
  assert (scannable (profiles (data h1))) as Hsc1.
  { rewrite Hd. simpl. apply Forall_forall.
    intros q [_ Hq]%list_elem_of_filter.
    eapply Forall_forall in Hsc; eauto. }
  unfold handle_check_profile_name. run_handler. rewrite Hcall. simpl.
  rewrite (name_taken_existing _ {["name" := VStr n']})
    by apply lookup_singleton_eq.
  rewrite (existing_with_name_scan _ _ _ n') by (done || apply lookup_singleton_eq).
  simpl. do 3 f_equal. apply negb_true_iff, bool_decide_eq_false.
  intros [p' E]. apply find_some in E as [Hin' Hc].
  apply list_elem_of_In in Hin'.
  apply clashes_true in Hc as (m & j & Hm & Hl' & Hj & Hne).
  rewrite Hd in Hin'. simpl in Hin'.
  apply list_elem_of_filter in Hin' as [Hkeep Hin'].
  apply list_elem_of_lookup in Hin as [k Hk].
  apply list_elem_of_lookup in Hin' as [k' Hk'].
  assert (k' = k) as ->.
  { eapply NoDup_alt; [exact Hnd| |].
    - rewrite list_lookup_fmap, Hk'. simpl.
      by rewrite (ci_name_of _ _ Hm), Hl', Hl.
    - rewrite list_lookup_fmap, Hk. simpl. by rewrite (ci_name_of _ _ Hn). }
  assert (p' = p) as -> by congruence.
  unfold id_differs in Hkeep. rewrite Hid, py_eq_refl in Hkeep. done.
Qed.

(** X13: [check_profile_name] called without a name checks the empty
    name, which no profile written by this integration carries: the
    answer is "available". *)
Theorem check_profile_name_without_name call h :
  well_formed (profiles (data h)) →
  data_name call = None →
  handle_check_profile_name call h = (Ok {| available := true |}, h).
Proof.
  intros Hwf Hcall. unfold handle_check_profile_name. run_handler.
  rewrite Hcall. simpl.
  rewrite (name_taken_existing _ {["name" := VStr ""]})
    by apply lookup_singleton_eq.
  rewrite (existing_with_name_scan _ _ _ "")
    by (by apply well_formed_scannable || apply lookup_singleton_eq).
  simpl. do 3 f_equal. apply negb_true_iff, bool_decide_eq_false.
  intros [p E]. apply find_some in E as [Hin Hc].
  apply list_elem_of_In in Hin.
  apply clashes_true in Hc as (m & j & Hm & Hl & _).
  eapply Forall_forall in Hwf; eauto.
  destruct (written_inv _ Hwf) as (m' & _ & Hm' & Hne & _).
  assert (m' = m) as -> by congruence.
  by apply lower_nonempty in Hl.
Qed.

(** X14: [check_profile_name] called with the name [None] raises
    [AttributeError] as soon as the store holds a profile, and changes
    nothing; on an empty store it answers "available". *)
Theorem check_profile_name_none call h :
  data_name call = Some VNone →
  (profiles (data h) = [] →
   handle_check_profile_name call h = (Ok {| available := true |}, h)) ∧
  (∀ p rest n, profiles (data h) = p :: rest →
               p !! "name" = Some (VStr n) →
               handle_check_profile_name call h
               = (Raise (AttributeError "lower"), h)).
Proof.
  intros Hcall. unfold handle_check_profile_name. run_handler.
  rewrite Hcall. simpl. split.
  - by intros ->.
  - intros p rest n -> Hn. simpl. unfold getitem. by rewrite Hn.
Qed.

End Deleting.

(** X8: deleting is idempotent: on a store written by this integration,
    a second [delete_profile] with the same id changes neither the
    document nor the saved payloads. *)
Theorem delete_twice_changes_nothing call h :
  well_formed (profiles (data h)) →
  let h1 := (handle_delete_profile call h).2 in
  let r := handle_delete_profile call h1 in
  r.1 = Ok () ∧ data r.2 = data h1 ∧ store r.2 = store h1.
Proof.
  intros Hwf h1 r. subst r h1.
  pose proof (scannable_has_ids _ (well_formed_scannable _ Hwf)) as Hids.
  destruct (delete_has_ids call h Hids) as (h1 & -> & Hd1 & _). simpl.
  set (pid := call_get (data_profile_id call) VNone) in *.
  assert (has_ids (profiles (data h1))) as Hids1.
  { rewrite Hd1. simpl. apply Forall_forall.
    intros q [_ Hq]%list_elem_of_filter.
    eapply Forall_forall in Hids; eauto. }
  destruct (delete_has_ids call h1 Hids1) as (h2 & -> & Hd2 & Hs2). simpl.
  fold pid in Hd2, Hs2.
  assert (filter (λ p, id_differs pid p) (profiles (data h1))
          = profiles (data h1)) as Hsame.
  { apply filter_all. intros q Hq. rewrite Hd1 in Hq. simpl in Hq.
    by apply list_elem_of_filter in Hq as [? _]. }
  rewrite Hsame in Hd2, Hs2. rewrite Nat.ltb_irrefl in Hs2.
  split_and!; [done | | done]. rewrite Hd2. by destruct (data h1).
Qed.

(** X9: when some stored profile has no ["id"] key (a document not
    written by this integration), [delete_profile] raises
    [KeyError("id")] and removes nothing, whatever id was asked for. *)
Theorem delete_raises_on_missing_id call h (p : gmap string value) :
  p ∈ profiles (data h) → p !! "id" = None →
  handle_delete_profile call h = (Raise (KeyError "id"), h).
Proof.
  intros Hin Hp. unfold handle_delete_profile. run_handler.
  by rewrite (without_id_missing _ _ p).
Qed.

(** ** The API key, read back *)

(** X10: [get_config] after [set_gemini_key] returns the key just set
    when it was [None] or a string ([None] for the empty string), and
    the key held before when the value was anything else, since the
    call then raised; the profiles are returned as they were, and
    [get_config] itself changes nothing. *)
Theorem set_key_then_get_config callS callG h :
  let api_key := call_get (data_api_key callS) VNone in
  let h1 := (handle_set_gemini_key callS h).2 in
  handle_get_config callG h1
  = (Ok {| resp_gemini_api_key :=
             match api_key with
             | VNone => VNone
             | VStr s => if bool_decide (s = "") then VNone else VStr s
             | _ => gemini_api_key (data h)
             end;
           resp_profiles := profiles (data h) |}, h1).
Proof.
  intros api_key h1. subst h1 api_key. unfold handle_get_config.
  destruct (set_gemini_key_cases callS h)
    as [(Hk & h' & -> & Hd & _) | ((Hk1 & Hk2) & ->)]; run_handler; simpl.
  - rewrite Hd. simpl. destruct Hk as [-> | [s ->]]; [done|].
    do 3 f_equal. destruct (decide (s = "")) as [->|Hs]; [done|].
    rewrite (bool_decide_eq_false_2 (s = "")) by done.
    by rewrite bool_decide_eq_false_2 by congruence.
  - destruct (call_get (data_api_key callS) VNone) as [| | | |s| |]; try done.
    by destruct (Hk2 s).
Qed.

(** ** Errors of [upsert_profile] *)

Section Errors.

Context {L : StrLower}.
Implicit Types (p q profile : gmap string value) (ps : list (gmap string value)).

(** X15: when the call's profile has a name that is a string, [None] or
    absent, and every stored profile has a string name and an id,
    [upsert_profile] raises nothing but its two [ValueError]s: the
    missing-name error or the name-collision error for the given name. *)
Theorem upsert_raises_only_value_errors V w call h :
  scannable (profiles (data h)) →
  let profile := call_get (data_profile call) ∅ in
  let r := handle_upsert_profile V w call h in
  (profile !! "name" = None ∨ profile !! "name" = Some VNone ∨
   ∃ s, profile !! "name" = Some (VStr s)) →
  (∃ e, r.1 = Raise e) →
  r.1 = Raise missing_name ∨
  ∃ n, profile !! "name" = Some (VStr n) ∧
       r.1 = Raise (name_collision (VStr n)).
Proof.
  intros Hsc profile r Hname [e He]. subst r.
  destruct (truthy (dict_get profile "name")) eqn:Hn.
  - right. destruct Hname as [Hnone | [Hnone | [n Hname]]];
      try (unfold dict_get in Hn; rewrite Hnone in Hn; discriminate).
    exists n. split; [done|].
    rewrite (dict_get_Some _ _ _ Hname) in Hn. apply truthy_VStr in Hn.
    destruct (data_profile call) as [pr|] eqn:Hcall;
      [|subst profile; simpl in Hname; by rewrite lookup_empty in Hname].
    destruct (upsert_scan_cases V w call h pr n Hsc Hcall Hname Hn)
      as [[_ E] | [_ (idx & v & _ & _ & E)]]; rewrite E in He |- *;
      simpl in *; [done | discriminate].
  - left. by apply upsert_missing_name_iff.
Qed.

Lemma upsert_blocked V w call h pre p rest profile n :
  profiles (data h) = (pre ++ p :: rest)%list →
  scannable pre →
  (∀ s, p !! "name" ≠ Some (VStr s)) →
  data_profile call = Some profile →
  profile !! "name" = Some (VStr n) → n ≠ "" →
  ¬ collides pre n (dict_get profile "id") →
  handle_upsert_profile V w call h
  = (Raise (match p !! "name" with
            | None => KeyError "name"
            | Some _ => AttributeError "lower"
            end), h).
Proof.
  intros Hps Hsc Hp Hcall Hname Hne Hnc.
  unfold handle_upsert_profile. run_handler. rewrite Hcall. simpl.
  rewrite (dict_get_Some _ _ _ Hname). simpl.
  rewrite (bool_decide_eq_false_2 _ Hne). simpl.
  rewrite Hps, (existing_with_name_app _ _ _ _ n) by done.
  simpl. unfold getitem.
  destruct (p !! "name") as [[| | | |s| |]|]; try done.
  by destruct (Hp s).
Qed.

(** X16: a stored profile whose name is missing or is not a string
    blocks upserts: unless an earlier profile already collides, every
    upsert of a profile with a non-empty string name raises
    [KeyError("name")], or [AttributeError] when the stored name is not
    a string, and stores nothing. *)
Theorem upsert_blocked_by_nameless_profile V w call h pre p rest profile n :
  profiles (data h) = (pre ++ p :: rest)%list →
  scannable pre →
  (∀ s, p !! "name" ≠ Some (VStr s)) →
  data_profile call = Some profile →
  profile !! "name" = Some (VStr n) → n ≠ "" →
  ¬ collides pre n (dict_get profile "id") →
  handle_upsert_profile V w call h
  = (Raise (match p !! "name" with
            | None => KeyError "name"
            | Some _ => AttributeError "lower"
            end), h).
Proof. apply upsert_blocked. Qed.


End Errors.

(** ** The further properties at concrete calls *)

Lemma two_profiles_reachable : reachable sample_version two_profiles.
Proof.
  exists [UpsertProfile sample_host home_call;
          UpsertProfile sample_host office_call].
  reflexivity.
Qed.

Lemma one_profile_reachable : reachable sample_version one_profile.
Proof. exists [UpsertProfile sample_host home_call]. reflexivity. Qed.

Lemma ids_unique_invariant_witness :
  ∃ a b, home !! "id" = Some a ∧ office !! "id" = Some b ∧ py_eq a b = false.
Proof.
  apply (ids_unique_invariant sample_version
           [UpsertProfile sample_host home_call;
            UpsertProfile sample_host office_call] 0 1 home office).
  - reflexivity.
  - reflexivity.
  - discriminate.
Defined.

Lemma invariant_kept_after_load_witness :
  ∃ n m, home !! "name" = Some (VStr n) ∧ office !! "name" = Some (VStr m) ∧
         lower n ≠ lower m.
Proof.
  destruct (invariant_kept_after_load sample_version (data one_profile)
              [UpsertProfile sample_host office_call]) as [Hnames _].
  - split_and!.
    + constructor; [|constructor]. split.
      * exists (VStr "Home"). split; reflexivity.
      * exists sample_uuid. split; reflexivity.
    + apply NoDup_singleton.
    + right. apply le_n.
  - apply (Hnames 0 1 home office); [reflexivity | reflexivity | discriminate].
Defined.

Lemma upsert_leaves_others_witness :
  profiles (data two_profiles) !! 0 = Some home ∧
  length (profiles (data two_profiles)) = 2.
Proof.
  destruct (upsert_leaves_others sample_version sample_host office_call
              one_profile {["id" := VStr "x"]} two_profiles (VStr "x"))
    as (_ & _ & Hkeep & Hlen).
  - vm_compute. reflexivity.
  - reflexivity.
  - split.
    + apply (Hkeep 0 home sample_uuid); reflexivity.
    + destruct Hlen as [(_ & p & a & Hin & Ha & Heq) | (Hlen & _)];
        [|exact Hlen].
      apply list_elem_of_singleton in Hin. subst p.
      exfalso. vm_compute in Ha. injection Ha as <-.
      vm_compute in Heq. discriminate.
Defined.

Lemma upsert_keeps_client_fields_witness :
  ∃ q, q ∈ profiles (data two_profiles) ∧ q !! "id" = Some (VStr "x") ∧
       ∀ key, key ≠ "id" → key ≠ "last_modified" →
              key ≠ "schema_version" → key ≠ "modified_by" →
              q !! key
              = ({["name" := VStr "Office"; "id" := VStr "x"]}
                   : gmap string value) !! key.
Proof.
  exact (upsert_keeps_client_fields sample_version sample_host office_call
           one_profile {["id" := VStr "x"]} two_profiles (VStr "x")
           eq_refl eq_refl).
Defined.

Lemma upsert_own_name_succeeds_witness :
  ∃ h', handle_upsert_profile sample_version sample_host
          (upsert_call {["name" := VStr "OFFICE"; "id" := VStr "x"]} None)
          two_profiles
        = (Ok {["id" := VStr "x"]}, h') ∧
        length (profiles (data h')) = 2.
Proof.
  destruct (upsert_own_name_succeeds sample_version sample_host
              (upsert_call {["name" := VStr "OFFICE"; "id" := VStr "x"]} None)
              two_profiles
              {["name" := VStr "OFFICE"; "id" := VStr "x"]}
              office 1 (VStr "x") "Office" "OFFICE")
    as (h' & Heq & Hps).
  - exact two_profiles_reachable.
  - reflexivity.
  - reflexivity.
  - reflexivity.
  - reflexivity.
  - reflexivity.
  - reflexivity.
  - reflexivity.
  - exists h'. split; [exact Heq|]. rewrite Hps. reflexivity.
Defined.

Lemma delete_removes_one_and_saves_witness :
  let r := handle_delete_profile (delete_call (VStr "x")) two_profiles in
  length (profiles (data r.2)) + 1 = 2 ∧
  store r.2 = data r.2 :: store two_profiles.
Proof.
  destruct (delete_removes_one_and_saves sample_version
              (delete_call (VStr "x")) two_profiles office)
    as (Hlen & _ & _ & Hstore).
  - exact two_profiles_reachable.
  - right. left.
  - reflexivity.
  - split; [exact Hlen | exact Hstore].
Defined.

Lemma delete_twice_changes_nothing_witness :
  let h1 := (handle_delete_profile (delete_call (VStr "x")) two_profiles).2 in
  store (handle_delete_profile (delete_call (VStr "x")) h1).2 = store h1.
Proof.
  apply (delete_twice_changes_nothing (delete_call (VStr "x")) two_profiles).
  repeat constructor.
Defined.

Lemma delete_raises_on_missing_id_witness :
  let h := loaded_store [home; {["name" := VStr "Den"]}] in
  handle_delete_profile (delete_call (VStr "x")) h
  = (Raise (KeyError "id"), h).
Proof.
  intros h.
  apply (delete_raises_on_missing_id (delete_call (VStr "x")) h
           {["name" := VStr "Den"]}).
  - right. left.
  - reflexivity.
Defined.

Lemma check_profile_name_excludes_self_witness :
  handle_check_profile_name (check_call (VStr "OFFICE") (Some (VStr "x")))
    two_profiles
  = (Ok {| available := true |}, two_profiles) ∧
  handle_check_profile_name (check_call (VStr "OFFICE") None) two_profiles
  = (Ok {| available := false |}, two_profiles).
Proof.
  split.
  - apply (check_profile_name_excludes_self sample_version two_profiles
             (check_call (VStr "OFFICE") (Some (VStr "x"))) office
             (VStr "x") "Office" "OFFICE");
      [exact two_profiles_reachable | right; left | reflexivity..].
  - apply (check_profile_name_excludes_self sample_version two_profiles
             (check_call (VStr "OFFICE") None) office
             (VStr "x") "Office" "OFFICE");
      [exact two_profiles_reachable | right; left | reflexivity..].
Defined.

Lemma delete_frees_name_witness :
  let h1 := (handle_delete_profile (delete_call (VStr "x")) two_profiles).2 in
  handle_check_profile_name (check_call (VStr "office") None) h1
  = (Ok {| available := true |}, h1).
Proof.
  apply (delete_frees_name sample_version two_profiles
           (delete_call (VStr "x")) (check_call (VStr "office") None)
           office "Office" "office");
    [exact two_profiles_reachable | right; left | reflexivity..].
Defined.

Lemma check_profile_name_without_name_witness :
  handle_check_profile_name bare_call two_profiles
  = (Ok {| available := true |}, two_profiles).
Proof.
  apply (check_profile_name_without_name bare_call two_profiles).
  - repeat constructor.
  - reflexivity.
Defined.

Lemma check_profile_name_none_witness :
  handle_check_profile_name (check_call VNone None) one_profile
  = (Raise (AttributeError "lower"), one_profile).
Proof.
  eapply (check_profile_name_none (check_call VNone None) one_profile).
  - reflexivity.
  - reflexivity.
  - reflexivity.
Defined.

Lemma upsert_raises_only_value_errors_witness :
  let r := handle_upsert_profile sample_version sample_host
             (upsert_call {["name" := VStr "hOmE"]} None) two_profiles in
  r.1 = Raise missing_name ∨
  ∃ n, ({["name" := VStr "hOmE"]} : gmap string value) !! "name"
       = Some (VStr n) ∧
       r.1 = Raise (name_collision (VStr n)).
Proof.
  intros r.
  refine (upsert_raises_only_value_errors sample_version sample_host
            (upsert_call {["name" := VStr "hOmE"]} None) two_profiles
            _ _ _).
  - repeat constructor; eexists; reflexivity.
  - right. right. exists "hOmE". reflexivity.
  - eexists. vm_compute. reflexivity.
Defined.

Lemma upsert_blocked_by_nameless_profile_witness :
  let h := loaded_store [home; {["id" := VStr "b"]}; office] in
  handle_upsert_profile sample_version sample_host
    (upsert_call {["name" := VStr "Den"]} None) h
  = (Raise (KeyError "name"), h).
Proof.
  intros h.
  refine (upsert_blocked_by_nameless_profile sample_version sample_host
            (upsert_call {["name" := VStr "Den"]} None) h
            [home] {["id" := VStr "b"]} [office] {["name" := VStr "Den"]}
            "Den" _ _ _ _ _ _ _).
  - reflexivity.
  - repeat constructor; eexists; reflexivity.
  - intros s. discriminate.
  - reflexivity.
  - reflexivity.
  - discriminate.
  - intros (p & m & j & Hin & Hm & Hl & _).
    apply list_elem_of_singleton in Hin. subst p.
    vm_compute in Hm. injection Hm as <-. vm_compute in Hl. discriminate.
Defined.

